(** * viral_tweets.ipynb: the labelling, scaling, splitting and k-sweep cells

    The notebook is a straight line of calls into pandas, numpy and
    scikit-learn.  Each library call the cells make is embedded below under
    the name the notebook uses for it, and each code cell under [cell_N].

    Numbers.  [retweet_count] is an int64 column: [Z].  pandas returns the
    median as a float64; the median of integers is an integer or a half, so it
    is carried exactly as a rational ([Q]) together with the value NaN that
    pandas returns for an empty column.  The float64 values are these
    rationals exactly as long as the counts stay within 2^52
    ([float64_exact]); a property that is not true of the rounded values
    carries that bound as a hypothesis.  The scaler takes a square root and
    is written over [R]: only what it does to a constant column is stated
    of it.  The classifier compares squared distances of rational
    coordinates; which rows it takes among rows at the same distance is
    left to the library ([knn]), with one choice written out so that the
    cells evaluate ([neighbors]). *)

From Stdlib Require Import List ZArith QArith Qround Lia Bool Arith.
From Stdlib Require Import Permutation Sorting.Sorted Sorting.Mergesort Orders.
From Stdlib Require Import Reals Lra.
From Stdlib Require String.
Import ListNotations.

Set Implicit Arguments.

(** ** Python exceptions and the result of running a cell *)

Inductive exn : Set :=
| ValueError
| IndexError
| NotFittedError.

Inductive result (A : Type) : Type :=
| Ok (a : A)
| Raise (e : exn).

Arguments Ok {A} a.
Arguments Raise {A} e.

Definition bind {A B : Type} (m : result A) (f : A -> result B) : result B :=
  match m with
  | Ok a => f a
  | Raise e => Raise e
  end.

Notation "x <- m ;; k" := (bind m (fun x => k))
  (at level 61, m at next level, right associativity).
Notation "' p <- m ;; k" := (bind m (fun p => k))
  (at level 61, p pattern, m at next level, right associativity).

(** A float64 as far as cell 4 needs it: NaN or an exact rational. *)
Inductive float : Set :=
| NaN
| Fin (q : Q).

(** ** numpy *)

Module ZOrder <: TotalLeBool.
Definition t := Z.
Definition leb := Z.leb.
Definition leb_total : forall a1 a2, leb a1 a2 = true \/ leb a2 a1 = true.
Proof. intros a b; unfold leb; rewrite !Z.leb_le; lia. Qed.
End ZOrder.

Module ZSort := Sort ZOrder.

Module np.

(** [a[lo:hi]] *)
Definition slice {A : Type} (a : list A) (lo hi : nat) : list A :=
  firstn (hi - lo) (skipn lo a).

(** [np.mean]: the sum over the count; NaN on an empty array. *)
Definition mean (a : list Q) : float :=
  match a with
  | [] => NaN
  | _ => Fin (fold_left Qplus a 0 / inject_Z (Z.of_nat (length a)))
  end.

(** [np.median] on a one-dimensional array: the middle element of the
    partitioned (here: sorted) array, or the mean of the two middle ones. *)
Definition median (a : list Z) : float :=
  let part := map inject_Z (ZSort.sort a) in
  let sz := length part in
  let index := (sz / 2)%nat in
  if Nat.odd sz
  then mean (slice part index (index + 1))
  else mean (slice part (index - 1) (index + 1)).

(** [x >= m] between an int64 and a float64; false against NaN. *)
Definition ge (x : Z) (m : float) : bool :=
  match m with
  | NaN => false
  | Fin q => Qle_bool q (inject_Z x)
  end.

(** [np.where(cond, x, y)]; the underscore only avoids the keyword. *)
Definition where_ (cond : list bool) (x y : Z) : list Z :=
  map (fun c : bool => if c then x else y) cond.

End np.

(** ** pandas *)

Module pd.

(** [Series.median()]: NaN for an empty column, else numpy's median. *)
Definition median (s : list Z) : float :=
  match s with
  | [] => NaN
  | _ => np.median s
  end.

(** [Series >= scalar], element by element. *)
Definition ge (s : list Z) (m : float) : list bool :=
  map (fun x => np.ge x m) s.

(** [Series.value_counts()] read at one value. *)
Definition value_counts (s : list Z) (v : Z) : nat :=
  count_occ Z.eq_dec s v.

End pd.

(** ** Cell 4: the median and the [is_viral] column *)

Definition median_retweets (retweet_count : list Z) : float :=
  pd.median retweet_count.

Definition is_viral (retweet_count : list Z) : list Z :=
  np.where_ (pd.ge retweet_count (median_retweets retweet_count)) 1 0.

(** The median as the specification words it: over the sorted values, the
    middle one when their number is odd, the average of the two middle ones
    when it is even. *)
Definition is_median (l : list Z) (m : Q) : Prop :=
  exists s : list Z,
    Permutation l s /\ StronglySorted Z.le s /\
    let n := length s in
    (Nat.odd n = true ->
       exists a, nth_error s (n / 2) = Some a /\ m == inject_Z a) /\
    (Nat.odd n = false ->
       exists a b, nth_error s (n / 2 - 1) = Some a /\
                   nth_error s (n / 2) = Some b /\
                   m == (inject_Z a + inject_Z b) / 2).

(** pandas takes the median, and numpy compares, in float64.  A count of
    absolute value up to 2^52 is a float64, and so is the sum of two such
    counts and its half: on such a column [np.median] and [np.ge] above are
    what the libraries compute, with no rounding. *)
Definition float64_exact (retweet_count : list Z) : Prop :=
  forall x, In x retweet_count -> (Z.abs x <= 2 ^ 52)%Z.


(** ** Cell 6: the three feature columns *)

Module frame.

Import String.

(** The result of code that may raise [KeyError] or [ValueError]; a
    [KeyError] carries the key that was not found. *)
Inductive keyed (A : Type) : Type :=
| Got (a : A)
| KeyError (key : string)
| ValueError.

Arguments Got {A} a.
Arguments KeyError {A} key.
Arguments ValueError {A}.

Definition kbind {A B : Type} (m : keyed A) (f : A -> keyed B) : keyed B :=
  match m with
  | Got a => f a
  | KeyError key => KeyError key
  | ValueError => ValueError
  end.

(** One row of [all_tweets] as cells 4 and 6 read it: the retweet count,
    which a line of the file may lack, the text, a sequence of code points,
    and the user object, the counters of a JSON object by name. *)
Record tweet : Type := {
  retweet_count : option Z;
  text : list N;
  user : list (string * Z)
}.

(** [all_tweets["retweet_count"]].  [read_json] gives the frame one column
    for every key that occurs in some line of the file: the column exists
    when some row has the field, and a row without it holds NaN (here
    [None]).  A frame read from a file with no line has no column. *)
Definition retweet_count_column (all_tweets : list tweet)
  : keyed (list (option Z)) :=
  if existsb (fun t => match retweet_count t with
                       | Some _ => true
                       | None => false
                       end) all_tweets
  then Got (map retweet_count all_tweets)
  else KeyError "retweet_count".

(** The values of a column that are not NaN. *)
Fixpoint dropna (col : list (option Z)) : list Z :=
  match col with
  | [] => []
  | Some x :: rest => x :: dropna rest
  | None :: rest => dropna rest
  end.

(** Cell 4 on the frame: the column is looked up, its median is taken over
    the values that are not NaN, and a row is labelled 1 when its count is
    at least the median; NaN compares false. *)
Definition cell_4 (all_tweets : list tweet) : keyed (float * list Z) :=
  kbind (retweet_count_column all_tweets)
    (fun col =>
       let median_retweets := pd.median (dropna col) in
       Got (median_retweets,
            map (fun v : option Z =>
                   match v with
                   | Some x => if np.ge x median_retweets then 1%Z else 0%Z
                   | None => 0%Z
                   end) col)).

(** [d[key]] on a dict. *)
Fixpoint getitem (d : list (string * Z)) (key : string) : keyed Z :=
  match d with
  | [] => KeyError key
  | (k, v) :: rest => if String.eqb k key then Got v else getitem rest key
  end.

(** [f] on every row, in order; the first exception leaves the call. *)
Fixpoint each_row {A : Type} (f : tweet -> keyed A) (rows : list tweet)
  : keyed (list A) :=
  match rows with
  | [] => Got []
  | t :: rest =>
      kbind (f t) (fun a => kbind (each_row f rest) (fun col => Got (a :: col)))
  end.

(** What [apply] returns: a column, or, on a frame with no rows, a frame. *)
Inductive applied (A : Type) : Type :=
| Column (col : list A)
| EmptyFrame.

Arguments Column {A} col.
Arguments EmptyFrame {A}.

(** [all_tweets.apply(f, axis=1)] *)
Definition apply {A : Type} (f : tweet -> keyed A) (rows : list tweet)
  : keyed (applied A) :=
  match rows with
  | [] => Got EmptyFrame
  | _ => kbind (each_row f rows) (fun col => Got (Column col))
  end.

(** [all_tweets[name] = value]: a frame cannot be stored as one column. *)
Definition setitem {A : Type} (value : applied A) : keyed (list A) :=
  match value with
  | Column col => Got col
  | EmptyFrame => ValueError
  end.

(** The cell: the columns [tweet_length], [followers_count] and
    [friends_count], computed and stored in this order. *)
Definition cell_6 (all_tweets : list tweet)
  : keyed (list nat * list Z * list Z) :=
  kbind (kbind (apply (fun tweet => Got (List.length (text tweet))) all_tweets)
               setitem)
    (fun tweet_length =>
  kbind (kbind (apply (fun tweet => getitem (user tweet) "followers_count")
                      all_tweets) setitem)
    (fun followers_count =>
  kbind (kbind (apply (fun tweet => getitem (user tweet) "friends_count")
                      all_tweets) setitem)
    (fun friends_count =>
  Got (tweet_length, followers_count, friends_count)))).

End frame.

(** ** Cell 8: [scale(data, axis=0)] *)

(** One row of [data]: the three columns the notebook keeps. *)
Record features (F : Type) : Type := Row {
  tweet_length : F;
  followers_count : F;
  friends_count : F
}.

Module preprocessing.

Definition sum (c : list R) : R := fold_right Rplus 0%R c.

(** [np.nanmean] of one column. *)
Definition nanmean (c : list R) : R := (sum c / INR (length c))%R.

(** [np.nanstd] of one column: the default [ddof=0] divides by the number
    of rows. *)
Definition nanstd (c : list R) : R :=
  sqrt (nanmean (map (fun x => ((x - nanmean c) * (x - nanmean c))%R) c)).

(** [np.allclose(a, 0)] with the default tolerances: [|a| <= 1e-8]. *)
Definition allclose0 (a : R) : bool :=
  if Rle_dec (Rabs a) (/ 100000000)%R then true else false.

(** [_handle_zeros_in_scale]: a zero divisor becomes 1.  (Releases from
    1.0 on also replace a divisor below ten machine epsilons; on the exact
    values here the two agree for a constant column.) *)
Definition handle_zeros_in_scale (s : R) : R :=
  if Req_dec_T s 0%R then 1%R else s.

(** What [scale] does along axis 0 to one column: centre, centre again if
    the centred mean is not close to zero, divide, and centre once more
    under the same test. *)
Definition scale_column (c : list R) : list R :=
  let mean_ := nanmean c in
  let scale_ := nanstd c in
  let Xr := map (fun x => (x - mean_)%R) c in
  let mean_1 := nanmean Xr in
  let Xr := if allclose0 mean_1 then Xr
            else map (fun x => (x - mean_1)%R) Xr in
  let scale_ := handle_zeros_in_scale scale_ in
  let Xr := map (fun x => (x / scale_)%R) Xr in
  let mean_2 := nanmean Xr in
  if allclose0 mean_2 then Xr else map (fun x => (x - mean_2)%R) Xr.

(** [scale] on the three-column matrix.  [check_array] refuses a matrix
    with no row. *)
Definition scale (X : list (features R)) : result (list (features R)) :=
  match X with
  | [] => Raise ValueError
  | _ =>
      let c1 := scale_column (map (@tweet_length R) X) in
      let c2 := scale_column (map (@followers_count R) X) in
      let c3 := scale_column (map (@friends_count R) X) in
      Ok (map (fun r : R * R * R => let '(a, b, c) := r in Row a b c)
              (combine (combine c1 c2) c3))
  end.

End preprocessing.

Definition scaled_data (data : list (features R)) : result (list (features R)) :=
  preprocessing.scale data.

(** The column statistics as the specification words them. *)
Definition mu (c : list R) : R :=
  (fold_right Rplus 0%R c / INR (length c))%R.

Definition sigma (c : list R) : R :=
  sqrt (fold_right Rplus 0%R (map (fun x => Rsqr (x - mu c)) c) / INR (length c)).

(** The divisor [scale] ends up using for a column. *)
Definition divisor (c : list R) : R :=
  preprocessing.handle_zeros_in_scale (sigma c).


(** ** Cell 10: [train_test_split(scaled_data, labels, test_size=0.2,
       random_state=1)] *)

Module model_selection.

Section Split.

(** [RandomState(random_state).permutation(n)]: the generator is outside
    the notebook; the split only indexes with what it returns. *)
Variable permutation : nat -> list nat.

(** [_validate_shuffle_split] for a float [test_size] and no [train_size]:
    [n_test = ceil(test_size * n_samples)], the rest is the training set,
    which may not be empty. *)
Definition validate_shuffle_split (n_samples : nat) (test_size : Q)
  : result (nat * nat) :=
  let n_test := Z.to_nat (Qceiling (test_size * inject_Z (Z.of_nat n_samples))) in
  let n_train := (n_samples - n_test)%nat in
  if (n_train =? 0)%nat then Raise ValueError else Ok (n_train, n_test).

(** [_safe_indexing(a, indices)] *)
Fixpoint safe_indexing {A : Type} (a : list A) (indices : list nat)
  : result (list A) :=
  match indices with
  | [] => Ok []
  | i :: rest =>
      match nth_error a i with
      | None => Raise IndexError
      | Some x => xs <- safe_indexing a rest ;; Ok (x :: xs)
      end
  end.

(** The split itself: lengths are checked, one permutation is drawn, its
    first [n_test] entries index the test rows and the next [n_train] the
    training rows, and both arrays are indexed with the same two index
    lists.  The result is in the order the call returns it:
    train and test of the first array, then train and test of the second. *)
Definition train_test_split {A B : Type} (X : list A) (y : list B)
  (test_size : Q) : result (list A * list A * list B * list B) :=
  if negb (length X =? length y)%nat then Raise ValueError else
  let n_samples := length X in
  '(n_train, n_test) <- validate_shuffle_split n_samples test_size ;;
  let perm := permutation n_samples in
  let ind_test := np.slice perm 0 n_test in
  let ind_train := np.slice perm n_test (n_test + n_train) in
  X_train <- safe_indexing X ind_train ;;
  X_test <- safe_indexing X ind_test ;;
  y_train <- safe_indexing y ind_train ;;
  y_test <- safe_indexing y ind_test ;;
  Ok (X_train, X_test, y_train, y_test).

End Split.

End model_selection.

Definition cell_10 (permutation : nat -> list nat) {A B : Type}
  (scaled_data : list A) (labels : list B)
  : result (list A * list A * list B * list B) :=
  model_selection.train_test_split permutation scaled_data labels (2 # 10).


(** ** Cells 12 and 14: [KNeighborsClassifier] *)

(** Training rows are ranked by their distance to the query row; a row is
    carried with its index in the training set. *)
Module DistOrder <: TotalLeBool.
Definition t := (Q * nat)%type.
Definition leb (a b : t) : bool := Qle_bool (fst a) (fst b).
Definition leb_total : forall a1 a2, leb a1 a2 = true \/ leb a2 a1 = true.
Proof.
  intros a b; unfold leb; rewrite !Qle_bool_iff.
  destruct (Qlt_le_dec (fst b) (fst a)) as [H | H]; [right | left]; auto.
  apply Qlt_le_weak; exact H.
Qed.
End DistOrder.

Module DistSort := Sort DistOrder.

Module neighbors.

Definition point : Type := features Q.

(** The squared Euclidean distance.  The classifier's default metric is the
    Euclidean one; ranking by the square gives the same order and stays
    rational. *)
Definition sqdist (a b : point) : Q :=
  (tweet_length a - tweet_length b) * (tweet_length a - tweet_length b)
  + (followers_count a - followers_count b) * (followers_count a - followers_count b)
  + (friends_count a - friends_count b) * (friends_count a - friends_count b).

(** The classifier object: its parameter and, once fitted, the training
    rows and their labels. *)
Record KNeighborsClassifier : Type := {
  n_neighbors : nat;
  fitted : option (list point * list Z)
}.

(** [KNeighborsClassifier(n_neighbors=k)] *)
Definition new (k : nat) : KNeighborsClassifier :=
  {| n_neighbors := k; fitted := None |}.

(** [classifier.fit(X, y)]: the arrays must be non-empty and of one length
    and [n_neighbors] positive; the object then holds the training set. *)
Definition fit (self : KNeighborsClassifier) (X : list point) (y : list Z)
  : result KNeighborsClassifier :=
  if (length X =? 0)%nat then Raise ValueError
  else if negb (length X =? length y)%nat then Raise ValueError
  else if (n_neighbors self =? 0)%nat then Raise ValueError
  else Ok {| n_neighbors := n_neighbors self; fitted := Some (X, y) |}.

(** The indices of the [k] training rows nearest to [x], nearest first.
    Rows at the same distance come in the order the sort leaves them; the
    library does not fix that order and no property below depends on it. *)
Definition nearest (k : nat) (fit_X : list point) (x : point) : list nat :=
  map snd (firstn k (DistSort.sort
    (combine (map (fun p => sqdist p x) fit_X) (seq 0 (length fit_X))))).

(** [classifier.kneighbors(X)]: refused before [fit], on an empty query and
    when [n_neighbors] is larger than the number of training rows
    ("Expected n_neighbors <= n_samples"), the last two with a
    [ValueError]. *)
Definition kneighbors (self : KNeighborsClassifier) (X : list point)
  : result (list (list nat)) :=
  match fitted self with
  | None => Raise NotFittedError
  | Some (fit_X, _) =>
      if (length X =? 0)%nat then Raise ValueError
      else if (length fit_X <? n_neighbors self)%nat then Raise ValueError
      else Ok (map (nearest (n_neighbors self) fit_X) X)
  end.

(** [np.unique]: the sorted distinct labels. *)
Definition unique (y : list Z) : list Z := ZSort.sort (nodup Z.eq_dec y).

(** The mode of the neighbours' labels: the classes are scanned in
    increasing order and a class replaces the current one only when it has
    strictly more votes, so the smallest class wins a tie. *)
Definition mode (classes : list Z) (votes : list Z) : Z :=
  fst (fold_left
         (fun (acc : Z * nat) (c : Z) =>
            let n := count_occ Z.eq_dec votes c in
            if (snd acc <? n)%nat then (c, n) else acc)
         classes (0%Z, 0%nat)).

(** [classifier.predict(X)] with uniform weights. *)
Definition predict (self : KNeighborsClassifier) (X : list point)
  : result (list Z) :=
  neigh_ind <- kneighbors self X ;;
  match fitted self with
  | None => Raise NotFittedError
  | Some (_, y) =>
      let classes_ := unique y in
      Ok (map (fun ind => mode classes_ (map (fun i => nth i y 0%Z) ind))
              neigh_ind)
  end.

(** The number of positions at which two label arrays agree. *)
Definition count_equal (y_true y_pred : list Z) : nat :=
  length (filter (fun p : Z * Z => Z.eqb (fst p) (snd p))
                 (combine y_true y_pred)).

(** [accuracy_score(y_true, y_pred)]: the fraction of agreeing positions. *)
Definition accuracy_score (y_true y_pred : list Z) : result Q :=
  if negb (length y_true =? length y_pred)%nat then Raise ValueError
  else Ok (inject_Z (Z.of_nat (count_equal y_true y_pred))
           / inject_Z (Z.of_nat (length y_true))).

(** [classifier.score(X, y)] *)
Definition score (self : KNeighborsClassifier) (X : list point) (y : list Z)
  : result Q :=
  y_pred <- predict self X ;;
  accuracy_score y y_pred.

End neighbors.

(** [range(a, b)] *)
Definition range (a b : nat) : list nat := seq a (b - a).

(** A [for] loop over a list whose body may raise: the first exception
    leaves the loop. *)
Fixpoint for_ {S : Type} (ks : list nat) (body : nat -> S -> result S)
  (s : S) : result S :=
  match ks with
  | [] => Ok s
  | k :: rest => s' <- body k s ;; for_ rest body s'
  end.

Section Cells.

Variables (train_data test_data : list neighbors.point).
Variables (train_labels test_labels : list Z).

(** Cell 12: one classifier with [k = 5]; the value is [model_score]. *)
Definition cell_12 : result Q :=
  classifier <- neighbors.fit (neighbors.new 5) train_data train_labels ;;
  neighbors.score classifier test_data test_labels.

(** The body of the loop of cell 14: a new classifier for this [k], fitted
    and scored, the score appended to [scores]. *)
Definition sweep_body (k : nat) (scores : list Q) : result (list Q) :=
  classifier <- neighbors.fit (neighbors.new k) train_data train_labels ;;
  s <- neighbors.score classifier test_data test_labels ;;
  Ok (scores ++ [s]).

(** One fit-and-score at a given [k]: what cell 12 does at 5 and the loop
    body does at each [k]. *)
Definition evaluate (k : nat) : result Q :=
  classifier <- neighbors.fit (neighbors.new k) train_data train_labels ;;
  neighbors.score classifier test_data test_labels.

(** Cell 14 up to the plot: [scores] after the loop. *)
Definition scores : result (list Q) :=
  for_ (range 1 200) sweep_body [].

(** Cell 14: the loop, then the points handed to [plt.plot]: the k's of
    [range(1, 200)] against [scores]. *)
Definition cell_14 : result (list (nat * Q)) :=
  scores <- scores ;;
  if negb (length (range 1 200) =? length scores)%nat then Raise ValueError
  else Ok (combine (range 1 200) scores).

End Cells.

(** ** The classifier with the neighbour search left to the library

    [kneighbors] finds the nearest training rows with a tree or by brute
    force, as the library chooses; which rows it returns among rows at the
    same distance from the query is not fixed by the library.  Here the
    search is a parameter: [search k X x] is the list of indices the
    library returns for the query [x].  [neighbors.nearest] above is one
    such search. *)

Module knn.

Section Search.

Variable search : nat -> list neighbors.point -> neighbors.point -> list nat.

(** [classifier.kneighbors(X)] *)
Definition kneighbors (self : neighbors.KNeighborsClassifier)
  (X : list neighbors.point) : result (list (list nat)) :=
  match neighbors.fitted self with
  | None => Raise NotFittedError
  | Some (fit_X, _) =>
      if (length X =? 0)%nat then Raise ValueError
      else if (length fit_X <? neighbors.n_neighbors self)%nat
           then Raise ValueError
      else Ok (map (search (neighbors.n_neighbors self) fit_X) X)
  end.

(** [classifier.predict(X)] with uniform weights. *)
Definition predict (self : neighbors.KNeighborsClassifier)
  (X : list neighbors.point) : result (list Z) :=
  neigh_ind <- kneighbors self X ;;
  match neighbors.fitted self with
  | None => Raise NotFittedError
  | Some (_, y) =>
      let classes_ := neighbors.unique y in
      Ok (map (fun ind =>
                 neighbors.mode classes_ (map (fun i => nth i y 0%Z) ind))
              neigh_ind)
  end.

(** [classifier.score(X, y)] *)
Definition score (self : neighbors.KNeighborsClassifier)
  (X : list neighbors.point) (y : list Z) : result Q :=
  y_pred <- predict self X ;;
  neighbors.accuracy_score y y_pred.

Variables (train_data test_data : list neighbors.point).
Variables (train_labels test_labels : list Z).

(** One fit-and-score at a given [k]. *)
Definition evaluate (k : nat) : result Q :=
  classifier <- neighbors.fit (neighbors.new k) train_data train_labels ;;
  score classifier test_data test_labels.

(** Cell 12. *)
Definition cell_12 : result Q :=
  classifier <- neighbors.fit (neighbors.new 5) train_data train_labels ;;
  score classifier test_data test_labels.

(** The body of the loop of cell 14. *)
Definition sweep_body (k : nat) (scores : list Q) : result (list Q) :=
  classifier <- neighbors.fit (neighbors.new k) train_data train_labels ;;
  s <- score classifier test_data test_labels ;;
  Ok (scores ++ [s]).

(** Cell 14 up to the plot. *)
Definition scores : result (list Q) :=
  for_ (range 1 200) sweep_body [].

(** Cell 14: the loop, then the points handed to [plt.plot]. *)
Definition cell_14 : result (list (nat * Q)) :=
  scores <- scores ;;
  if negb (length (range 1 200) =? length scores)%nat then Raise ValueError
  else Ok (combine (range 1 200) scores).

End Search.

End knn.

(** ** What the specification asks of the classifier *)

(** The squared Euclidean distance between two rows: the sum over the
    three features of the squared difference. *)
Definition squared_euclidean (p q : features Q) : Q :=
  (tweet_length p - tweet_length q) ^ 2
  + (followers_count p - followers_count q) ^ 2
  + (friends_count p - friends_count q) ^ 2.

(** The number of rows whose prediction is their label. *)
Fixpoint correct_predictions (labels predictions : list Z) : nat :=
  match labels, predictions with
  | l :: labels', p :: predictions' =>
      ((if Z.eq_dec l p then 1 else 0) + correct_predictions labels' predictions')%nat
  | _, _ => 0%nat
  end.

(** What the library's search is taken to return for [k] up to the number
    of training rows: [k] distinct rows of the training set, no row left
    out being strictly nearer to the query than a row returned. *)
Definition is_neighbour_search
  (search : nat -> list neighbors.point -> neighbors.point -> list nat)
  : Prop :=
  forall (k : nat) (X : list neighbors.point) (x : neighbors.point),
    (k <= length X)%nat ->
    length (search k X x) = k /\ NoDup (search k X x) /\
    (forall i, In i (search k X x) -> (i < length X)%nat) /\
    (forall i j p q, In i (search k X x) -> ~ In j (search k X x) ->
       nth_error X i = Some p -> nth_error X j = Some q ->
       squared_euclidean p x <= squared_euclidean q x).

(** What the specification asks of one prediction: [lab] is a majority
    label among [k] distinct training rows that are nearest to [x], no row
    left out being strictly nearer than a row taken. *)
Definition is_knn_prediction (k : nat) (X : list neighbors.point)
  (y : list Z) (x : neighbors.point) (lab : Z) : Prop :=
  exists ind : list nat,
    length ind = k /\ NoDup ind /\
    (forall i, In i ind -> (i < length X)%nat) /\
    (forall i j p q, In i ind -> ~ In j ind ->
       nth_error X i = Some p -> nth_error X j = Some q ->
       squared_euclidean p x <= squared_euclidean q x) /\
    let votes := map (fun i => nth i y 0%Z) ind in
    In lab votes /\
    forall c, (count_occ Z.eq_dec votes c <= count_occ Z.eq_dec votes lab)%nat.

(** The accuracy the specification asks for at one [k]: correct
    predictions over all test predictions. *)
Definition is_knn_accuracy (k : nat) (train_data : list neighbors.point)
  (train_labels : list Z) (test_data : list neighbors.point)
  (test_labels : list Z) (acc : Q) : Prop :=
  exists y_pred : list Z,
    Forall2 (is_knn_prediction k train_data train_labels) test_data y_pred /\
    acc = inject_Z (Z.of_nat (correct_predictions test_labels y_pred))
          / inject_Z (Z.of_nat (length y_pred)).


(** The score at one [k] as a number: what [evaluate] returns, 0 standing
    for a raise. *)
Definition score_at (train_data test_data : list neighbors.point)
  (train_labels test_labels : list Z) (k : nat) : Q :=
  match evaluate train_data test_data train_labels test_labels k with
  | Ok acc => acc
  | Raise _ => 0
  end.

(** ** Small partitions on which the cells are run below *)

(** 199 training rows on a line with alternating labels, one test row. *)
Definition line_train_data : list neighbors.point :=
  map (fun i => Row (inject_Z (Z.of_nat i)) 0 0) (seq 0 199).

Definition line_train_labels : list Z :=
  map (fun i => Z.of_nat (i mod 2)) (seq 0 199).

Definition line_test_data : list neighbors.point := [Row (7 # 2) 0 0].

Definition line_test_labels : list Z := [1%Z].



(** Two training rows, one test row. *)
Definition pair_train_data : list neighbors.point := [Row 0 0 0; Row 1 1 1].

Definition pair_train_labels : list Z := [0%Z; 1%Z].

Definition pair_test_data : list neighbors.point := [Row (1 # 4) 0 0].

Definition pair_test_labels : list Z := [0%Z].


(** The test row of the two-row partition, on its own. *)
Definition pair_test_row : neighbors.point := Row (1 # 4) 0 0.

(** 250 rows on a line with alternating labels, before the split. *)
Definition long_data : list neighbors.point :=
  map (fun i => Row (inject_Z (Z.of_nat i)) 0 0) (seq 0 250).

Definition long_labels : list Z :=
  map (fun i => Z.of_nat (i mod 2)) (seq 0 250).


(** * Properties *)

(** ** Sorting facts used by the median *)

Lemma StronglySorted_sort_le (l : list Z) : StronglySorted Z.le (ZSort.sort l).
Proof.
  assert (H : StronglySorted (fun x y => is_true (ZOrder.leb x y)) (ZSort.sort l)).
  { apply ZSort.StronglySorted_sort.
    intros x y z; unfold ZOrder.leb, is_true; rewrite !Z.leb_le; lia. }
  induction H as [| a s Hs IH Ha]; constructor; auto.
  eapply Forall_impl; [| exact Ha].
  intros b; unfold ZOrder.leb, is_true; rewrite Z.leb_le; auto.
Qed.

Lemma StronglySorted_unique (s1 : list Z) :
  forall s2, StronglySorted Z.le s1 -> StronglySorted Z.le s2 ->
             Permutation s1 s2 -> s1 = s2.
Proof.
  induction s1 as [| a s1 IH]; intros s2 H1 H2 HP.
  - apply Permutation_nil in HP; auto.
  - destruct s2 as [| b s2].
    + apply Permutation_sym, Permutation_nil in HP; discriminate.
    + inversion H1 as [| ? ? Hs1 Ha]; inversion H2 as [| ? ? Hs2 Hb]; subst.
      assert (a = b).
      { assert (Hab : In b (a :: s1))
          by (eapply Permutation_in; [apply Permutation_sym; exact HP | left; auto]).
        assert (Hba : In a (b :: s2))
          by (eapply Permutation_in; [exact HP | left; auto]).
        rewrite Forall_forall in Ha, Hb.
        destruct Hab as [-> | Hab]; auto.
        destruct Hba as [-> | Hba]; auto.
        specialize (Ha _ Hab); specialize (Hb _ Hba); lia. }
      subst b; f_equal; apply IH; auto.
      eapply Permutation_cons_inv; exact HP.
Qed.

Lemma sort_Permutation (l l' : list Z) :
  Permutation l l' -> ZSort.sort l = ZSort.sort l'.
Proof.
  intros HP; apply StronglySorted_unique; try apply StronglySorted_sort_le.
  eapply Permutation_trans; [apply Permutation_sym, ZSort.Permuted_sort |].
  eapply Permutation_trans; [exact HP | apply ZSort.Permuted_sort].
Qed.

Lemma sort_length (l : list Z) : length (ZSort.sort l) = length l.
Proof. apply Permutation_length, Permutation_sym, ZSort.Permuted_sort. Qed.

Lemma StronglySorted_nth (s : list Z) :
  StronglySorted Z.le s ->
  forall i j, (i <= j < length s)%nat -> (nth i s 0 <= nth j s 0)%Z.
Proof.
  induction 1 as [| a s Hs IH Ha]; intros i j Hij; simpl in *; [lia |].
  destruct i as [| i], j as [| j]; try lia.
  - rewrite Forall_forall in Ha; apply Ha, nth_In; lia.
  - apply IH; lia.
Qed.

(** ** The slices the median reads *)

Lemma slice_one (A : Type) (s : list A) (d : A) (k : nat) :
  (k < length s)%nat -> np.slice s k (k + 1) = [nth k s d].
Proof.
  unfold np.slice; replace (k + 1 - k)%nat with 1%nat by lia.
  revert k; induction s as [| a s IH]; intros k Hk; simpl in *; [lia |].
  destruct k as [| k]; simpl; [reflexivity |].
  apply IH; lia.
Qed.

Lemma slice_two (A : Type) (s : list A) (d : A) (k : nat) :
  (1 <= k < length s)%nat ->
  np.slice s (k - 1) (k + 1) = [nth (k - 1) s d; nth k s d].
Proof.
  unfold np.slice; intros Hk.
  replace (k + 1 - (k - 1))%nat with 2%nat by lia.
  destruct k as [| k]; [lia |].
  replace (S k - 1)%nat with k by lia.
  revert k Hk; induction s as [| a s IH]; intros k Hk; simpl in *; [lia |].
  destruct k as [| k]; simpl.
  - destruct s; simpl in *; [lia | reflexivity].
  - apply IH; lia.
Qed.

(** ** The value of the median and the comparison against it *)

Lemma median_value (l : list Z) :
  l <> [] ->
  let s := ZSort.sort l in
  let k := (length l / 2)%nat in
  pd.median l =
  Fin (if Nat.odd (length l)
       then (0 + inject_Z (nth k s 0%Z)) / inject_Z 1
       else (0 + inject_Z (nth (k - 1) s 0%Z) + inject_Z (nth k s 0%Z))
            / inject_Z 2).
Proof.
  intros Hl s k.
  assert (Hn : (0 < length l)%nat) by (destruct l; simpl; [congruence | lia]).
  unfold pd.median; destruct l as [| x l']; [congruence |].
  set (l := x :: l') in *; clearbody l; clear x l' Hl.
  unfold np.median.
  rewrite length_map, sort_length; fold s; fold k.
  assert (Hs : length (map inject_Z s) = length l)
    by (unfold s; rewrite length_map; apply sort_length).
  destruct (Nat.odd (length l)) eqn:Hodd.
  - rewrite (slice_one (map inject_Z s) (inject_Z 0) (k := k))
      by (rewrite Hs; unfold k; apply Nat.div_lt; lia).
    rewrite map_nth; reflexivity.
  - assert (Hk : (1 <= k < length l)%nat).
    { assert (Heven : Nat.even (length l) = true)
        by (rewrite <- Nat.negb_odd, Hodd; reflexivity).
      apply Nat.even_spec in Heven; destruct Heven as [m Hm].
      assert (Hkm : k = m)
        by (unfold k; rewrite Hm, Nat.mul_comm; apply Nat.div_mul; lia).
      lia. }
    rewrite (slice_two (map inject_Z s) (inject_Z 0) (k := k))
      by (rewrite Hs; exact Hk).
    rewrite !map_nth; reflexivity.
Qed.

Lemma ge_median (l : list Z) (x : Z) :
  l <> [] ->
  let s := ZSort.sort l in
  let k := (length l / 2)%nat in
  np.ge x (pd.median l) =
  if Nat.odd (length l)
  then (nth k s 0 <=? x)%Z
  else (nth (k - 1) s 0 + nth k s 0 <=? 2 * x)%Z.
Proof.
  intros Hl s k; rewrite (median_value Hl); fold s; fold k.
  destruct (Nat.odd (length l)); unfold np.ge;
    apply eq_iff_eq_true; rewrite Qle_bool_iff, Z.leb_le;
    unfold Qle, Qdiv, Qmult, Qplus, Qinv, inject_Z; cbn -[Z.mul Z.add]; lia.
Qed.

(** ** Counting the labels *)

Lemma is_viral_map (l : list Z) :
  is_viral l =
  map (fun x => if np.ge x (median_retweets l) then 1%Z else 0%Z) l.
Proof. unfold is_viral, np.where_, pd.ge; apply map_map. Qed.

Lemma count_ones (f : Z -> bool) (l : list Z) :
  count_occ Z.eq_dec (map (fun x => if f x then 1%Z else 0%Z) l) 1%Z
  = length (filter f l).
Proof.
  induction l as [| a l IH]; simpl; [reflexivity |].
  destruct (f a); simpl; rewrite IH; reflexivity.
Qed.

Lemma count_zeros (f : Z -> bool) (l : list Z) :
  count_occ Z.eq_dec (map (fun x => if f x then 1%Z else 0%Z) l) 0%Z
  = length (filter (fun x => negb (f x)) l).
Proof.
  induction l as [| a l IH]; simpl; [reflexivity |].
  destruct (f a); simpl; rewrite IH; reflexivity.
Qed.

Lemma filter_length_Permutation (A : Type) (f : A -> bool) (l l' : list A) :
  Permutation l l' -> length (filter f l) = length (filter f l').
Proof.
  induction 1 as [| a l l' _ IH | a b l | l l' l'' _ IH1 _ IH2]; simpl.
  - reflexivity.
  - destruct (f a); simpl; rewrite IH; reflexivity.
  - destruct (f a), (f b); reflexivity.
  - rewrite IH1; exact IH2.
Qed.

Lemma filter_all (A : Type) (f : A -> bool) (l : list A) :
  (forall x, In x l -> f x = true) -> filter f l = l.
Proof.
  induction l as [| a l IH]; intros H; simpl; [reflexivity |].
  rewrite (H a) by (left; reflexivity).
  f_equal; apply IH; intros x Hx; apply H; right; exact Hx.
Qed.

(** Every value in the upper part of the sorted column passes the test
    against the median. *)
Lemma upper_half_ge_median (l : list Z) (x : Z) :
  l <> [] ->
  In x (skipn (length l / 2) (ZSort.sort l)) ->
  np.ge x (pd.median l) = true.
Proof.
  intros Hl Hx.
  assert (Hn : (0 < length l)%nat) by (destruct l; simpl; [congruence | lia]).
  rewrite (ge_median x Hl).
  set (s := ZSort.sort l) in *; set (k := (length l / 2)%nat) in *.
  assert (Hlen : length s = length l) by apply sort_length.
  assert (Hsorted : StronglySorted Z.le s) by apply StronglySorted_sort_le.
  destruct (In_nth _ _ 0%Z Hx) as [j [Hj Hnth]].
  rewrite length_skipn, Hlen in Hj; rewrite nth_skipn in Hnth.
  assert (Hk : (nth k s 0 <= x)%Z)
    by (rewrite <- Hnth; apply StronglySorted_nth; [exact Hsorted | lia]).
  destruct (Nat.odd (length l)); [apply Z.leb_le; exact Hk |].
  apply Z.leb_le.
  assert (Hk' : (nth (k - 1) s 0 <= nth k s 0)%Z)
    by (apply StronglySorted_nth; [exact Hsorted | lia]).
  lia.
Qed.

Lemma ones_at_least_upper_half (l : list Z) :
  l <> [] ->
  (length l - length l / 2 <= pd.value_counts (is_viral l) 1)%nat.
Proof.
  intros Hl; unfold pd.value_counts.
  rewrite is_viral_map, count_ones.
  rewrite (filter_length_Permutation _ (ZSort.Permuted_sort l)).
  set (k := (length l / 2)%nat).
  rewrite <- (firstn_skipn k (ZSort.sort l)) at 1.
  rewrite filter_app, length_app.
  rewrite (filter_all _ (skipn k (ZSort.sort l))).
  - rewrite length_skipn, sort_length; lia.
  - intros x Hx; apply upper_half_ge_median; assumption.
Qed.

Lemma counts_sum (l : list Z) :
  (pd.value_counts (is_viral l) 1 + pd.value_counts (is_viral l) 0)%nat
  = length l.
Proof.
  unfold pd.value_counts; rewrite is_viral_map, count_ones, count_zeros.
  apply filter_length.
Qed.

Lemma median_Permutation (l l' : list Z) :
  Permutation l l' -> pd.median l' = pd.median l.
Proof.
  intros HP; unfold pd.median, np.median.
  rewrite (sort_Permutation HP).
  destruct l as [| a l], l' as [| a' l']; try reflexivity.
  apply Permutation_nil in HP; discriminate.
Qed.

Lemma two_52 : (2 ^ 52 = 4503599627370496)%Z.
Proof. reflexivity. Qed.

(** ** Claims about cell 4 *)

(** C1.  On a non-empty column of counts within the range in which
    float64 is exact, the median is one rational [m], it is the
    statistical median of the column (the middle value, or the average of
    the two middle values for an even number of records), and the label of
    every record is 1 exactly when its count is at least [m] and 0
    otherwise. *)
Theorem label_iff_ge_median (retweet_count : list Z) :
  retweet_count <> [] ->
  float64_exact retweet_count ->
  exists m : Q,
    median_retweets retweet_count = Fin m /\
    is_median retweet_count m /\
    length (is_viral retweet_count) = length retweet_count /\
    forall (i : nat) (x : Z),
      nth_error retweet_count i = Some x ->
      exists lab : Z,
        nth_error (is_viral retweet_count) i = Some lab /\
        (lab = 1%Z <-> m <= inject_Z x) /\
        (lab = 0%Z <-> ~ m <= inject_Z x).
Proof.
  intros Hl _.
  assert (Hn : (0 < length retweet_count)%nat)
    by (destruct retweet_count; simpl; [congruence | lia]).
  pose proof (median_value Hl) as Hm; cbv zeta in Hm.
  set (s := ZSort.sort retweet_count) in *.
  set (k := (length retweet_count / 2)%nat) in *.
  assert (Hlen : length s = length retweet_count) by apply sort_length.
  eexists; split; [exact Hm | split; [| split]].
  - exists s; split; [apply ZSort.Permuted_sort |].
    split; [apply StronglySorted_sort_le |].
    cbv zeta; rewrite Hlen; fold k; split; intros Hodd; rewrite Hodd.
    + exists (nth k s 0%Z); split.
      * apply nth_error_nth'; rewrite Hlen; apply Nat.div_lt; lia.
      * unfold Qeq, Qdiv, Qmult, Qplus, Qinv, inject_Z; cbn -[Z.mul Z.add]; lia.
    + assert (Hk : (1 <= k < length retweet_count)%nat).
      { assert (Heven : Nat.even (length retweet_count) = true)
          by (rewrite <- Nat.negb_odd, Hodd; reflexivity).
        apply Nat.even_spec in Heven; destruct Heven as [j Hj].
        assert (Hkj : k = j)
          by (unfold k; rewrite Hj, Nat.mul_comm; apply Nat.div_mul; lia).
        lia. }
      exists (nth (k - 1) s 0%Z), (nth k s 0%Z); repeat split.
      * apply nth_error_nth'; lia.
      * apply nth_error_nth'; lia.
      * unfold Qeq, Qdiv, Qmult, Qplus, Qinv, inject_Z; cbn -[Z.mul Z.add]; lia.
  - rewrite is_viral_map; apply length_map.
  - intros i x Hx.
    rewrite is_viral_map, nth_error_map, Hx; simpl.
    unfold median_retweets; rewrite Hm; unfold np.ge.
    eexists; split; [reflexivity |].
    rewrite <- Qle_bool_iff.
    destruct (Qle_bool _ (inject_Z x)); split; split; intros H;
      try reflexivity; try discriminate; congruence.
Qed.

(** A column of five counts with median 3. *)
Lemma label_iff_ge_median_witness :
  exists m : Q,
    median_retweets [5; 1; 3; 9; 2]%Z = Fin m /\
    is_median [5; 1; 3; 9; 2]%Z m /\
    length (is_viral [5; 1; 3; 9; 2]%Z) = length [5; 1; 3; 9; 2]%Z /\
    forall (i : nat) (x : Z),
      nth_error [5; 1; 3; 9; 2]%Z i = Some x ->
      exists lab : Z,
        nth_error (is_viral [5; 1; 3; 9; 2]%Z) i = Some lab /\
        (lab = 1%Z <-> m <= inject_Z x) /\
        (lab = 0%Z <-> ~ m <= inject_Z x).
Proof.
  apply (@label_iff_ge_median [5; 1; 3; 9; 2]%Z); [discriminate |].
  intros x Hx; rewrite two_52; simpl in Hx; lia.
Defined.

Example median_odd : median_retweets [5; 1; 3; 9; 2]%Z = Fin ((0 + 3) / 1).
Proof. reflexivity. Qed.

Example median_even : median_retweets [4; 1; 3; 2]%Z = Fin ((0 + 2 + 3) / 2).
Proof. reflexivity. Qed.

Example is_viral_even : is_viral [4; 1; 3; 2]%Z = [1; 0; 1; 0]%Z.
Proof. reflexivity. Qed.

(** C8.  On a non-empty column the numbers of labels 1 and 0 add up to the
    number of records, and reordering the column changes neither the median
    nor any record's label: the labels of the reordered column are the
    comparison of each of its values with the median of the original one,
    so the (count, label) pairs are the same pairs in the new order. *)
Theorem labels_invariant_under_reordering (l l' : list Z) :
  l <> [] ->
  Permutation l l' ->
  (pd.value_counts (is_viral l) 1 + pd.value_counts (is_viral l) 0)%nat
    = length l /\
  median_retweets l' = median_retweets l /\
  is_viral l' =
    map (fun x => if np.ge x (median_retweets l) then 1%Z else 0%Z) l' /\
  Permutation (combine l (is_viral l)) (combine l' (is_viral l')).
Proof.
  intros _ HP.
  assert (Hm : median_retweets l' = median_retweets l)
    by (apply median_Permutation; exact HP).
  split; [apply counts_sum | split; [exact Hm | split]].
  - rewrite is_viral_map, Hm; reflexivity.
  - rewrite !is_viral_map, Hm.
    set (f := fun x : Z => if np.ge x (median_retweets l) then 1%Z else 0%Z).
    assert (Hc : forall s : list Z, combine s (map f s) = map (fun x => (x, f x)) s)
      by (induction s as [| a s IH]; simpl; [| rewrite IH]; reflexivity).
    rewrite !Hc; apply Permutation_map; exact HP.
Qed.

(** The column [4; 1; 3; 2] and the same records with the first two
    exchanged. *)
Lemma labels_invariant_under_reordering_witness :
  (pd.value_counts (is_viral [4; 1; 3; 2]%Z) 1
   + pd.value_counts (is_viral [4; 1; 3; 2]%Z) 0)%nat
    = length [4; 1; 3; 2]%Z /\
  median_retweets [1; 4; 3; 2]%Z = median_retweets [4; 1; 3; 2]%Z /\
  is_viral [1; 4; 3; 2]%Z =
    map (fun x => if np.ge x (median_retweets [4; 1; 3; 2]%Z) then 1%Z else 0%Z)
        [1; 4; 3; 2]%Z /\
  Permutation (combine [4; 1; 3; 2]%Z (is_viral [4; 1; 3; 2]%Z))
              (combine [1; 4; 3; 2]%Z (is_viral [1; 4; 3; 2]%Z)).
Proof.
  apply (@labels_invariant_under_reordering [4; 1; 3; 2]%Z [1; 4; 3; 2]%Z).
  - discriminate.
  - apply perm_swap.
Defined.

(** C10.  On a non-empty column at least as many records are labelled 1 as
    are labelled 0, and at least half of them, rounded up, are labelled 1. *)
Theorem viral_at_least_half (retweet_count : list Z) :
  retweet_count <> [] ->
  (pd.value_counts (is_viral retweet_count) 0
   <= pd.value_counts (is_viral retweet_count) 1)%nat /\
  ((length retweet_count + 1) / 2
   <= pd.value_counts (is_viral retweet_count) 1)%nat.
Proof.
  intros Hl.
  pose proof (ones_at_least_upper_half Hl) as Hup.
  pose proof (counts_sum retweet_count) as Hsum.
  set (n := length retweet_count) in *.
  pose proof (Nat.div_mod_eq n 2) as H1.
  pose proof (Nat.div_mod_eq (n + 1) 2) as H2.
  pose proof (Nat.mod_upper_bound n 2) as H3.
  pose proof (Nat.mod_upper_bound (n + 1) 2) as H4.
  split; lia.
Qed.

Lemma viral_at_least_half_witness :
  (pd.value_counts (is_viral [7; 7; 0; 1; 7]%Z) 0
   <= pd.value_counts (is_viral [7; 7; 0; 1; 7]%Z) 1)%nat /\
  ((length [7; 7; 0; 1; 7]%Z + 1) / 2
   <= pd.value_counts (is_viral [7; 7; 0; 1; 7]%Z) 1)%nat.
Proof. apply (@viral_at_least_half [7; 7; 0; 1; 7]%Z); discriminate. Defined.

(** ** The scaler *)

Lemma sum_centered (c : list R) (m : R) :
  preprocessing.sum (map (fun x => (x - m)%R) c)
  = (preprocessing.sum c - INR (length c) * m)%R.
Proof.
  induction c as [| a c IH]; [simpl; lra |].
  change (map (fun x => (x - m)%R) (a :: c))
    with ((a - m)%R :: map (fun x => (x - m)%R) c).
  change (preprocessing.sum ((a - m)%R :: map (fun x => (x - m)%R) c))
    with ((a - m) + preprocessing.sum (map (fun x => (x - m)%R) c))%R.
  change (preprocessing.sum (a :: c)) with (a + preprocessing.sum c)%R.
  rewrite IH; change (length (a :: c)) with (S (length c)); rewrite S_INR; lra.
Qed.

Lemma sum_divided (c : list R) (s : R) :
  preprocessing.sum (map (fun x => (x / s)%R) c) = (preprocessing.sum c / s)%R.
Proof.
  induction c as [| a c IH]; [simpl; unfold Rdiv; rewrite Rmult_0_l; reflexivity |].
  change (preprocessing.sum (map (fun x => (x / s)%R) (a :: c)))
    with (a / s + preprocessing.sum (map (fun x => (x / s)%R) c))%R.
  change (preprocessing.sum (a :: c)) with (a + preprocessing.sum c)%R.
  rewrite IH; unfold Rdiv; lra.
Qed.

Lemma sum_of_centered_is_zero (c : list R) :
  preprocessing.sum (map (fun x => (x - preprocessing.nanmean c)%R) c) = 0%R.
Proof.
  rewrite sum_centered; unfold preprocessing.nanmean.
  destruct c as [| a c]; [simpl; lra |].
  assert (Hn : INR (length (a :: c)) <> 0%R) by (apply not_0_INR; discriminate).
  field; exact Hn.
Qed.

Lemma allclose0_zero : preprocessing.allclose0 0 = true.
Proof.
  unfold preprocessing.allclose0.
  destruct (Rle_dec (Rabs 0) (/ 100000000)) as [_ | H]; [reflexivity |].
  exfalso; apply H; rewrite Rabs_R0; lra.
Qed.

(** The two re-centring steps of [scale] find a mean of exactly zero and
    leave the column alone. *)
Lemma scale_column_value (c : list R) :
  preprocessing.scale_column c =
  map (fun x => ((x - preprocessing.nanmean c)
                 / preprocessing.handle_zeros_in_scale (preprocessing.nanstd c))%R) c.
Proof.
  unfold preprocessing.scale_column.
  set (m := preprocessing.nanmean c).
  set (s := preprocessing.handle_zeros_in_scale (preprocessing.nanstd c)).
  assert (H1 : preprocessing.nanmean (map (fun x => (x - m)%R) c) = 0%R).
  { unfold preprocessing.nanmean at 1; unfold m.
    rewrite sum_of_centered_is_zero; unfold Rdiv; apply Rmult_0_l. }
  rewrite H1, allclose0_zero.
  assert (H2 : preprocessing.nanmean
                 (map (fun x => (x / s)%R) (map (fun x => (x - m)%R) c)) = 0%R).
  { unfold preprocessing.nanmean at 1; unfold m.
    rewrite sum_divided, sum_of_centered_is_zero; unfold Rdiv.
    rewrite !Rmult_0_l; reflexivity. }
  rewrite H2, allclose0_zero.
  apply map_map.
Qed.

Lemma nanmean_mu (c : list R) : preprocessing.nanmean c = mu c.
Proof. reflexivity. Qed.

Lemma nanstd_sigma (c : list R) : preprocessing.nanstd c = sigma c.
Proof.
  unfold preprocessing.nanstd, sigma, preprocessing.nanmean at 1.
  rewrite length_map; reflexivity.
Qed.

Lemma combine_columns (A : Type) (f1 f2 f3 : A -> R) (X : list A) :
  map (fun r : R * R * R => let '(a, b, c) := r in Row a b c)
      (combine (combine (map f1 X) (map f2 X)) (map f3 X))
  = map (fun r => Row (f1 r) (f2 r) (f3 r)) X.
Proof.
  induction X as [| r X IH]; simpl; [| rewrite IH]; reflexivity.
Qed.

Lemma scale_rows (data : list (features R)) :
  data <> [] ->
  let c1 := map (@tweet_length R) data in
  let c2 := map (@followers_count R) data in
  let c3 := map (@friends_count R) data in
  scaled_data data =
  Ok (map (fun r => Row ((tweet_length r - mu c1) / divisor c1)%R
                        ((followers_count r - mu c2) / divisor c2)%R
                        ((friends_count r - mu c3) / divisor c3)%R) data).
Proof.
  intros Hd; cbv zeta.
  unfold scaled_data, preprocessing.scale, divisor.
  destruct data as [| r0 rest]; [congruence |].
  remember (r0 :: rest) as D eqn:HD; clear HD Hd r0 rest.
  rewrite !scale_column_value, !map_map, combine_columns.
  rewrite !nanmean_mu, !nanstd_sigma; reflexivity.
Qed.

Lemma sigma_nil : sigma [] = 0%R.
Proof.
  unfold sigma; simpl; unfold Rdiv; rewrite Rmult_0_l; apply sqrt_0.
Qed.

Lemma divisor_zero (c : list R) : sigma c = 0%R -> divisor c = 1%R.
Proof.
  intros H; unfold divisor, preprocessing.handle_zeros_in_scale.
  destruct (Req_dec_T (sigma c) 0) as [_ | N]; [reflexivity | contradiction].
Qed.

Lemma squares_nonneg (c : list R) (m : R) :
  (0 <= fold_right Rplus 0 (map (fun x => Rsqr (x - m)) c))%R.
Proof.
  induction c as [| a c IH]; simpl; [lra |].
  pose proof (Rle_0_sqr (a - m)); lra.
Qed.

Lemma squares_zero (c : list R) (m : R) :
  fold_right Rplus 0%R (map (fun x => Rsqr (x - m)) c) = 0%R ->
  forall x, In x c -> x = m.
Proof.
  induction c as [| a c IH]; simpl; intros H x Hx; [contradiction |].
  pose proof (Rle_0_sqr (a - m)) as Ha.
  pose proof (squares_nonneg c m) as Hc.
  destruct Hx as [<- | Hx].
  - assert (Hz : Rsqr (a - m) = 0%R) by lra.
    apply Rsqr_0_uniq in Hz; lra.
  - apply IH; [lra | exact Hx].
Qed.

(** A column of standard deviation zero is constant. *)
Lemma sigma_zero_constant (c : list R) :
  c <> [] -> sigma c = 0%R -> forall x, In x c -> x = mu c.
Proof.
  intros Hc Hs.
  assert (Hn : (0 < INR (length c))%R)
    by (apply lt_0_INR; destruct c; simpl; [congruence | lia]).
  pose proof (squares_nonneg c (mu c)) as Hsq.
  unfold sigma in Hs.
  apply sqrt_eq_0 in Hs.
  - apply squares_zero.
    unfold Rdiv in Hs.
    apply Rmult_integral in Hs; destruct Hs as [Hs | Hs]; [exact Hs |].
    pose proof (Rinv_0_lt_compat _ Hn); lra.
  - unfold Rdiv; apply Rmult_le_pos; [exact Hsq |].
    left; apply Rinv_0_lt_compat; exact Hn.
Qed.

(** ** Claims about cell 8 *)

(** C5, as claimed, fails: the first column of this matrix is constant, its
    standard deviation is zero, and [scale] returns a matrix. *)
Lemma scale_constant_column_returns :
  sigma (map (@tweet_length R) [Row 1 0 0; Row 1 2 4]%R) = 0%R /\
  (exists scaled, scaled_data [Row 1 0 0; Row 1 2 4]%R = Ok scaled) /\
  ~ (exists e : exn, scaled_data [Row 1 0 0; Row 1 2 4]%R = Raise e).
Proof.
  split; [| split].
  - unfold sigma, mu; simpl.
    replace ((Rsqr (1 - (1 + (1 + 0)) / (1 + 1))
              + (Rsqr (1 - (1 + (1 + 0)) / (1 + 1)) + 0)) / (1 + 1))%R
      with 0%R by (unfold Rsqr; field).
    apply sqrt_0.
  - unfold scaled_data, preprocessing.scale; eexists; reflexivity.
  - intros [e He]; unfold scaled_data, preprocessing.scale in He; discriminate He.
Qed.

(** C5, amended.  On a matrix with at least one row [scale] does not fail
    on a constant column.  It returns a matrix with one row per record; a
    column whose standard deviation is zero is divided by 1 instead, so
    each of its entries is value - mu, which is 0. *)
Theorem scale_constant_column (data : list (features R)) :
  data <> [] ->
  let c1 := map (@tweet_length R) data in
  let c2 := map (@followers_count R) data in
  let c3 := map (@friends_count R) data in
  exists scaled : list (features R),
    scaled_data data = Ok scaled /\
    length scaled = length data /\
    forall (i : nat) (r : features R),
      nth_error data i = Some r ->
      exists r' : features R,
        nth_error scaled i = Some r' /\
        (sigma c1 = 0%R ->
           tweet_length r' = (tweet_length r - mu c1)%R /\ tweet_length r' = 0%R) /\
        (sigma c2 = 0%R ->
           followers_count r' = (followers_count r - mu c2)%R /\
           followers_count r' = 0%R) /\
        (sigma c3 = 0%R ->
           friends_count r' = (friends_count r - mu c3)%R /\ friends_count r' = 0%R).
Proof.
  intros Hd c1 c2 c3; subst c1 c2 c3.
  eexists; split; [apply (scale_rows Hd) | split].
  - apply length_map.
  - intros i r Hr.
    rewrite nth_error_map, Hr; simpl.
    eexists; split; [reflexivity |].
    assert (Hin : In r data) by (eapply nth_error_In; exact Hr).
    assert (Hc : forall f : features R -> R, map f data <> [])
      by (intros f E; apply map_eq_nil in E; contradiction).
    simpl; split; [| split]; intros Hs; rewrite (divisor_zero _ Hs); split.
    + field.
    + rewrite <- (sigma_zero_constant (Hc _) Hs (tweet_length r))
        by (apply in_map; exact Hin); field.
    + field.
    + rewrite <- (sigma_zero_constant (Hc _) Hs (followers_count r))
        by (apply in_map; exact Hin); field.
    + field.
    + rewrite <- (sigma_zero_constant (Hc _) Hs (friends_count r))
        by (apply in_map; exact Hin); field.
Qed.

Lemma scale_constant_column_witness :
  exists scaled : list (features R),
    scaled_data [Row 1 0 0; Row 1 2 4]%R = Ok scaled /\
    length scaled = 2%nat /\
    forall (i : nat) (r : features R),
      nth_error [Row 1 0 0; Row 1 2 4]%R i = Some r ->
      exists r' : features R,
        nth_error scaled i = Some r' /\
        (sigma [1; 1]%R = 0%R ->
           tweet_length r' = (tweet_length r - mu [1; 1])%R /\
           tweet_length r' = 0%R) /\
        (sigma [0; 2]%R = 0%R ->
           followers_count r' = (followers_count r - mu [0; 2])%R /\
           followers_count r' = 0%R) /\
        (sigma [0; 4]%R = 0%R ->
           friends_count r' = (friends_count r - mu [0; 4])%R /\
           friends_count r' = 0%R).
Proof.
  apply (@scale_constant_column [Row 1 0 0; Row 1 2 4]%R); discriminate.
Defined.

(** ** The splitter *)

Lemma n_test_fifth (n : nat) :
  Z.to_nat (Qceiling ((2 # 10) * inject_Z (Z.of_nat n))) = ((n + 4) / 5)%nat.
Proof.
  unfold Qceiling, Qfloor, Qopp, Qmult, inject_Z.
  cbn -[Z.mul Z.div Z.of_nat Nat.div].
  pose proof (Z.div_mod (- (2 * Z.of_nat n)) 10) as H1.
  pose proof (Z.mod_pos_bound (- (2 * Z.of_nat n)) 10) as H2.
  pose proof (Z.div_mod (Z.of_nat n + 4) 5) as H3.
  pose proof (Z.mod_pos_bound (Z.of_nat n + 4) 5) as H4.
  apply Nat2Z.inj; rewrite Nat2Z.inj_div, Z2Nat.id by lia.
  rewrite Nat2Z.inj_add; simpl (Z.of_nat 4); simpl (Z.of_nat 5); lia.
Qed.

Lemma validate_shuffle_split_value (n : nat) :
  (2 <= n)%nat ->
  model_selection.validate_shuffle_split n (2 # 10)
  = Ok ((n - (n + 4) / 5)%nat, ((n + 4) / 5)%nat).
Proof.
  intros Hn; unfold model_selection.validate_shuffle_split.
  rewrite n_test_fifth.
  pose proof (Nat.div_mod_eq (n + 4) 5) as H1.
  pose proof (Nat.mod_upper_bound (n + 4) 5) as H2.
  destruct (Nat.eqb_spec (n - (n + 4) / 5) 0) as [E | _]; [lia | reflexivity].
Qed.

Lemma safe_indexing_app (A : Type) (a : list A) (i1 i2 : list nat)
  (x1 x2 : list A) :
  model_selection.safe_indexing a i1 = Ok x1 ->
  model_selection.safe_indexing a i2 = Ok x2 ->
  model_selection.safe_indexing a (i1 ++ i2) = Ok (x1 ++ x2).
Proof.
  revert x1; induction i1 as [| i i1 IH]; intros x1 H1 H2; simpl in *.
  - injection H1 as <-; exact H2.
  - destruct (nth_error a i) as [x |]; [| discriminate].
    destruct (model_selection.safe_indexing a i1) as [xs | e]; simpl in *;
      [| discriminate].
    injection H1 as <-.
    rewrite (IH xs eq_refl H2); reflexivity.
Qed.

Lemma safe_indexing_image (A : Type) (a : list A) (idx : list nat)
  (xs : list A) :
  model_selection.safe_indexing a idx = Ok xs ->
  map Some xs = map (nth_error a) idx.
Proof.
  revert xs; induction idx as [| i idx IH]; intros xs H; simpl in *.
  - injection H as <-; reflexivity.
  - destruct (nth_error a i) as [x |]; [| discriminate].
    destruct (model_selection.safe_indexing a idx) as [ys | e]; simpl in *;
      [| discriminate].
    injection H as <-; simpl; rewrite (IH ys eq_refl); reflexivity.
Qed.

Lemma safe_indexing_returns (A : Type) (a : list A) (idx : list nat) :
  (forall i, In i idx -> (i < length a)%nat) ->
  exists xs, model_selection.safe_indexing a idx = Ok xs.
Proof.
  induction idx as [| i idx IH]; intros H; simpl.
  - eexists; reflexivity.
  - destruct (nth_error a i) as [x |] eqn:E.
    + destruct IH as [xs Hxs]; [intros j Hj; apply H; right; exact Hj |].
      rewrite Hxs; simpl; eexists; reflexivity.
    + apply nth_error_None in E.
      specialize (H i (or_introl eq_refl)); lia.
Qed.

Lemma safe_indexing_combine (A B : Type) (a : list A) (b : list B)
  (idx : list nat) (xs : list A) (ys : list B) :
  model_selection.safe_indexing a idx = Ok xs ->
  model_selection.safe_indexing b idx = Ok ys ->
  model_selection.safe_indexing (combine a b) idx = Ok (combine xs ys).
Proof.
  revert xs ys; induction idx as [| i idx IH]; intros xs ys Ha Hb; simpl in *.
  - injection Ha as <-; injection Hb as <-; reflexivity.
  - destruct (nth_error a i) as [x |] eqn:Ex; [| discriminate].
    destruct (nth_error b i) as [y |] eqn:Ey; [| discriminate].
    destruct (model_selection.safe_indexing a idx) as [xs' | e]; simpl in *;
      [| discriminate].
    destruct (model_selection.safe_indexing b idx) as [ys' | e]; simpl in *;
      [| discriminate].
    injection Ha as <-; injection Hb as <-.
    assert (Hxy : nth_error (combine a b) i = Some (x, y)).
    { clear - Ex Ey; revert b i Ex Ey.
      induction a as [| a0 a IHa]; intros b i Ex Ey;
        [destruct i; discriminate |].
      destruct b as [| b0 b]; [destruct i; discriminate |].
      destruct i as [| i]; simpl in *; [congruence | apply IHa; assumption]. }
    rewrite Hxy, (IH xs' ys' eq_refl eq_refl); reflexivity.
Qed.

Lemma nth_error_seq_self (A : Type) (a : list A) :
  map (nth_error a) (seq 0 (length a)) = map Some a.
Proof.
  induction a as [| x a IH]; simpl; [reflexivity |].
  rewrite <- seq_shift, map_map, <- IH; reflexivity.
Qed.

Lemma map_Some_inj (A : Type) (l1 l2 : list A) :
  map Some l1 = map Some l2 -> l1 = l2.
Proof.
  revert l2; induction l1 as [| a l1 IH]; intros [| b l2] H; simpl in *;
    try discriminate; [reflexivity |].
  injection H as -> H; f_equal; apply IH; exact H.
Qed.

(** Indexing with a permutation of all the positions permutes the rows. *)
Lemma safe_indexing_Permutation (A : Type) (a : list A) (idx : list nat)
  (xs : list A) :
  Permutation idx (seq 0 (length a)) ->
  model_selection.safe_indexing a idx = Ok xs ->
  Permutation a xs.
Proof.
  intros HP H.
  apply safe_indexing_image in H.
  assert (HP' : Permutation (map Some xs) (map Some a)).
  { rewrite H; rewrite <- (nth_error_seq_self a).
    apply Permutation_map; exact HP. }
  apply Permutation_sym in HP'.
  apply Permutation_map_inv in HP'; destruct HP' as [l3 [E P3]].
  apply map_Some_inj in E; subst l3.
  apply Permutation_sym; exact P3.
Qed.

Lemma safe_indexing_length (A : Type) (a : list A) (idx : list nat)
  (xs : list A) :
  model_selection.safe_indexing a idx = Ok xs -> length xs = length idx.
Proof.
  intros H; apply safe_indexing_image in H.
  apply (f_equal (@length _)) in H; rewrite !length_map in H; exact H.
Qed.

Lemma safe_indexing_nth (A : Type) (a : list A) (idx : list nat)
  (xs : list A) (j i : nat) :
  model_selection.safe_indexing a idx = Ok xs ->
  nth_error idx j = Some i ->
  nth_error xs j = nth_error a i.
Proof.
  intros H Hj; apply safe_indexing_image in H.
  apply (f_equal (fun l => nth_error l j)) in H.
  rewrite !nth_error_map, Hj in H; simpl in H.
  destruct (nth_error xs j) as [x |]; simpl in H; [| discriminate].
  injection H as H; exact H.
Qed.

(** The two index lists of the split are the permutation cut in two, so
    the test rows followed by the training rows are the input indexed by
    the whole permutation; the same holds for the labels. *)
Lemma split_is_indexing (permutation : nat -> list nat) (A B : Type)
  (X : list A) (y : list B) (X_train X_test : list A)
  (y_train y_test : list B) :
  length (permutation (length X)) = length X ->
  cell_10 permutation X y = Ok (X_train, X_test, y_train, y_test) ->
  model_selection.safe_indexing X (permutation (length X))
    = Ok (X_test ++ X_train) /\
  model_selection.safe_indexing y (permutation (length X))
    = Ok (y_test ++ y_train) /\
  length X_train = length y_train /\ length X_test = length y_test.
Proof.
  intros Hlen H.
  unfold cell_10, model_selection.train_test_split in H.
  destruct (negb (length X =? length y)%nat); [discriminate |].
  unfold model_selection.validate_shuffle_split in H.
  set (n := length X) in *.
  set (n_test := Z.to_nat (Qceiling ((2 # 10) * inject_Z (Z.of_nat n)))) in *.
  destruct (Nat.eqb_spec (n - n_test) 0) as [E | E]; [discriminate |].
  simpl in H.
  set (perm := permutation n) in *.
  assert (Htest : np.slice perm 0 n_test = firstn n_test perm)
    by (unfold np.slice; rewrite Nat.sub_0_r; reflexivity).
  assert (Htrain : np.slice perm n_test (n_test + (n - n_test)) = skipn n_test perm).
  { unfold np.slice.
    replace (n_test + (n - n_test) - n_test)%nat with (n - n_test)%nat by lia.
    apply firstn_all2; rewrite length_skipn; lia. }
  rewrite Htest, Htrain in H.
  destruct (model_selection.safe_indexing X (skipn n_test perm)) as [xtr | e] eqn:E1;
    simpl in H; [| discriminate].
  destruct (model_selection.safe_indexing X (firstn n_test perm)) as [xte | e] eqn:E2;
    simpl in H; [| discriminate].
  destruct (model_selection.safe_indexing y (skipn n_test perm)) as [ytr | e] eqn:E3;
    simpl in H; [| discriminate].
  destruct (model_selection.safe_indexing y (firstn n_test perm)) as [yte | e] eqn:E4;
    simpl in H; [| discriminate].
  injection H as <- <- <- <-.
  rewrite <- (firstn_skipn n_test perm) at 1 2.
  repeat split.
  - apply safe_indexing_app; assumption.
  - apply safe_indexing_app; assumption.
  - rewrite (safe_indexing_length _ _ E1), (safe_indexing_length _ _ E3); reflexivity.
  - rewrite (safe_indexing_length _ _ E2), (safe_indexing_length _ _ E4); reflexivity.
Qed.

Lemma slice_incl (A : Type) (a : list A) (lo hi : nat) :
  incl (np.slice a lo hi) a.
Proof.
  intros x Hx; unfold np.slice in Hx.
  rewrite <- (firstn_skipn lo a); apply in_or_app; right.
  rewrite <- (firstn_skipn (hi - lo) (skipn lo a)); apply in_or_app; left.
  exact Hx.
Qed.

Lemma split_returns (permutation : nat -> list nat) (A B : Type)
  (X : list A) (y : list B) :
  length X = length y ->
  (2 <= length X)%nat ->
  Permutation (permutation (length X)) (seq 0 (length X)) ->
  exists out, cell_10 permutation X y = Ok out.
Proof.
  intros Hxy Hn HP.
  unfold cell_10, model_selection.train_test_split.
  rewrite <- Hxy, Nat.eqb_refl; cbn [negb].
  rewrite (validate_shuffle_split_value Hn); cbn [bind].
  assert (Hin : forall idx (C : Type) (a : list C),
             length a = length X -> incl idx (permutation (length X)) ->
             exists xs, model_selection.safe_indexing a idx = Ok xs).
  { intros idx C a Ha Hincl; apply safe_indexing_returns.
    intros i Hi; apply Hincl in Hi.
    apply (Permutation_in _ HP), in_seq in Hi; lia. }
  assert (I1 : forall lo hi, incl (np.slice (permutation (length X)) lo hi)
                                  (permutation (length X))).
  { intros lo hi; apply slice_incl. }
  destruct (Hin _ _ X eq_refl (I1 ((length X + 4) / 5)%nat
              (((length X + 4) / 5) + (length X - (length X + 4) / 5))%nat))
    as [xtr ->]; cbn [bind].
  destruct (Hin _ _ X eq_refl (I1 0%nat ((length X + 4) / 5)%nat)) as [xte ->]; cbn [bind].
  destruct (Hin _ _ y (eq_sym Hxy) (I1 ((length X + 4) / 5)%nat
              (((length X + 4) / 5) + (length X - (length X + 4) / 5))%nat))
    as [ytr ->]; cbn [bind].
  destruct (Hin _ _ y (eq_sym Hxy) (I1 0%nat ((length X + 4) / 5)%nat)) as [yte ->]; cbn [bind].
  eexists; reflexivity.
Qed.

Lemma combine_append (A B : Type) (x1 x2 : list A) (y1 y2 : list B) :
  length x1 = length y1 ->
  combine (x1 ++ x2) (y1 ++ y2) = combine x1 y1 ++ combine x2 y2.
Proof.
  revert y1; induction x1 as [| a x1 IH]; intros [| b y1] H; simpl in *;
    try discriminate; [reflexivity |].
  f_equal; apply IH; lia.
Qed.

(** ** Claim about cell 10 *)

(** C7.  Features and labels of one length, split with any permutation the
    generator may draw: from two records on the split returns; whenever it
    returns, both partitions pair features and labels row for row; the
    record at index [i] of the input is found at the position [j] the
    permutation gives it (test rows first, then training rows) with its
    own features and its own label; and the (features, label) pairs of the
    two partitions are exactly the pairs of the input. *)
Theorem split_keeps_rows_paired (permutation : nat -> list nat) (A B : Type)
  (features : list A) (labels : list B) :
  length features = length labels ->
  Permutation (permutation (length features)) (seq 0 (length features)) ->
  ((2 <= length features)%nat ->
   exists out, cell_10 permutation features labels = Ok out) /\
  forall X_train X_test y_train y_test,
    cell_10 permutation features labels
      = Ok (X_train, X_test, y_train, y_test) ->
    length X_train = length y_train /\
    length X_test = length y_test /\
    (forall j i, nth_error (permutation (length features)) j = Some i ->
       nth_error (X_test ++ X_train) j = nth_error features i /\
       nth_error (y_test ++ y_train) j = nth_error labels i) /\
    (forall i, (i < length features)%nat ->
       exists j, nth_error (permutation (length features)) j = Some i /\
         nth_error (X_test ++ X_train) j = nth_error features i /\
         nth_error (y_test ++ y_train) j = nth_error labels i) /\
    Permutation (combine features labels)
                (combine X_train y_train ++ combine X_test y_test).
Proof.
  intros Hxy HP; split.
  - intros Hn; apply split_returns; assumption.
  - intros X_train X_test y_train y_test H.
    assert (Hlen : length (permutation (length features)) = length features)
      by (rewrite (Permutation_length HP); apply length_seq).
    destruct (split_is_indexing _ _ _ Hlen H) as [HX [Hy [Htr Hte]]].
    assert (Hpos : forall j i,
               nth_error (permutation (length features)) j = Some i ->
               nth_error (X_test ++ X_train) j = nth_error features i /\
               nth_error (y_test ++ y_train) j = nth_error labels i).
    { intros j i Hj; split; eapply safe_indexing_nth; eassumption. }
    split; [exact Htr | split; [exact Hte | split; [exact Hpos | split]]].
    + intros i Hi.
      assert (Hin : In i (permutation (length features)))
        by (apply (Permutation_in _ (Permutation_sym HP)), in_seq; lia).
      apply In_nth_error in Hin; destruct Hin as [j Hj].
      exists j; split; [exact Hj | apply Hpos; exact Hj].
    + pose proof (safe_indexing_combine _ _ _ HX Hy) as Hc.
      assert (HP' : Permutation (permutation (length features))
                                (seq 0 (length (combine features labels))))
        by (rewrite length_combine, <- Hxy, Nat.min_id; exact HP).
      pose proof (@safe_indexing_Permutation _ _ _ _ HP' Hc) as Hperm.
      rewrite combine_append in Hperm by exact Hte.
      eapply Permutation_trans; [exact Hperm | apply Permutation_app_comm].
Qed.

(** Five records, the generator returning the positions in reverse. *)
Lemma split_keeps_rows_paired_witness :
  ((2 <= 5)%nat ->
   exists out,
     cell_10 (fun n => rev (seq 0 n)) [10; 20; 30; 40; 50]%Z [1; 0; 1; 0; 1]%Z
     = Ok out) /\
  forall X_train X_test y_train y_test,
    cell_10 (fun n => rev (seq 0 n)) [10; 20; 30; 40; 50]%Z [1; 0; 1; 0; 1]%Z
      = Ok (X_train, X_test, y_train, y_test) ->
    length X_train = length y_train /\
    length X_test = length y_test /\
    (forall j i, nth_error (rev (seq 0 5)) j = Some i ->
       nth_error (X_test ++ X_train) j = nth_error [10; 20; 30; 40; 50]%Z i /\
       nth_error (y_test ++ y_train) j = nth_error [1; 0; 1; 0; 1]%Z i) /\
    (forall i, (i < 5)%nat ->
       exists j, nth_error (rev (seq 0 5)) j = Some i /\
         nth_error (X_test ++ X_train) j = nth_error [10; 20; 30; 40; 50]%Z i /\
         nth_error (y_test ++ y_train) j = nth_error [1; 0; 1; 0; 1]%Z i) /\
    Permutation (combine [10; 20; 30; 40; 50]%Z [1; 0; 1; 0; 1]%Z)
                (combine X_train y_train ++ combine X_test y_test).
Proof.
  apply (@split_keeps_rows_paired (fun n => rev (seq 0 n)) Z Z
           [10; 20; 30; 40; 50]%Z [1; 0; 1; 0; 1]%Z).
  - reflexivity.
  - apply Permutation_sym, Permutation_rev.
Defined.

Example cell_10_five :
  cell_10 (fun n => rev (seq 0 n)) [10; 20; 30; 40; 50]%Z [1; 0; 1; 0; 1]%Z
  = Ok ([40; 30; 20; 10]%Z, [50]%Z, [0; 1; 0; 1]%Z, [1]%Z).
Proof. reflexivity. Qed.

(** ** The loop of cell 14 *)

Section Sweep.

Variables (train_data test_data : list neighbors.point).
Variables (train_labels test_labels : list Z).

Let eval := evaluate train_data test_data train_labels test_labels.
Let body := sweep_body train_data test_data train_labels test_labels.

Lemma cell_12_evaluate :
  cell_12 train_data test_data train_labels test_labels = eval 5%nat.
Proof. reflexivity. Qed.

Lemma sweep_body_evaluate (k : nat) (sc : list Q) :
  body k sc = (s <- eval k ;; Ok (sc ++ [s])).
Proof.
  unfold body, eval, sweep_body, evaluate.
  destruct (neighbors.fit (neighbors.new k) train_data train_labels);
    reflexivity.
Qed.

(** A loop that ends normally has appended one score per [k], in order. *)
Lemma for_sweep_inv (ks : list nat) :
  forall (acc ss : list Q),
    for_ ks body acc = Ok ss ->
    exists vs, ss = acc ++ vs /\ Forall2 (fun k s => eval k = Ok s) ks vs.
Proof.
  induction ks as [| k ks IH]; intros acc ss H; simpl in H.
  - injection H as <-; exists []; split; [symmetry; apply app_nil_r | constructor].
  - rewrite sweep_body_evaluate in H.
    destruct (eval k) as [s | e] eqn:Ek; simpl in H; [| discriminate].
    destruct (IH _ _ H) as [vs [-> Hvs]].
    exists (s :: vs); split; [rewrite <- app_assoc; reflexivity |].
    constructor; assumption.
Qed.

Lemma for_sweep_ok (ks : list nat) :
  forall (acc vs : list Q),
    Forall2 (fun k s => eval k = Ok s) ks vs ->
    for_ ks body acc = Ok (acc ++ vs).
Proof.
  induction ks as [| k ks IH]; intros acc vs H; inversion H; subst; simpl.
  - rewrite app_nil_r; reflexivity.
  - rewrite sweep_body_evaluate.
    match goal with E : eval k = Ok _ |- _ => rewrite E end; simpl.
    rewrite IH with (vs := l') by assumption.
    rewrite <- app_assoc; reflexivity.
Qed.

(** The first [k] that raises ends the loop with its exception. *)
Lemma for_sweep_raise (ks1 ks2 : list nat) (k : nat) (e : exn) :
  forall acc : list Q,
    Forall (fun k' => exists s, eval k' = Ok s) ks1 ->
    eval k = Raise e ->
    for_ (ks1 ++ k :: ks2) body acc = Raise e.
Proof.
  induction ks1 as [| k1 ks1 IH]; intros acc H1 Hk; simpl.
  - rewrite sweep_body_evaluate, Hk; reflexivity.
  - inversion H1 as [| ? ? [s Hs] Hrest]; subst.
    rewrite sweep_body_evaluate, Hs; simpl.
    apply IH; assumption.
Qed.

End Sweep.

(** ** The neighbours and the vote *)

Lemma StronglySorted_app_le (A : Type) (R : A -> A -> Prop) (l1 l2 : list A) :
  StronglySorted R (l1 ++ l2) ->
  forall a b, In a l1 -> In b l2 -> R a b.
Proof.
  induction l1 as [| x l1 IH]; simpl; intros H a b Ha Hb; [contradiction |].
  inversion H as [| ? ? Hs Hx]; subst.
  destruct Ha as [<- | Ha].
  - rewrite Forall_forall in Hx; apply Hx, in_or_app; right; exact Hb.
  - apply IH; assumption.
Qed.

Lemma DistSort_StronglySorted (l : list (Q * nat)) :
  StronglySorted (fun a b => fst a <= fst b) (DistSort.sort l).
Proof.
  assert (H : StronglySorted (fun a b => is_true (DistOrder.leb a b))
                             (DistSort.sort l)).
  { apply DistSort.StronglySorted_sort.
    intros a b c; unfold DistOrder.leb, is_true; rewrite !Qle_bool_iff.
    apply Qle_trans. }
  induction H as [| a s Hs IH Ha]; constructor; auto.
  eapply Forall_impl; [| exact Ha].
  intros b; unfold DistOrder.leb, is_true; rewrite Qle_bool_iff; auto.
Qed.

Lemma in_combine_seq (A : Type) (f : A -> Q) (X : list A) :
  forall (s : nat) (d : Q) (i : nat),
    In (d, i) (combine (map f X) (seq s (length X))) <->
    exists p, nth_error X (i - s) = Some p /\ (s <= i)%nat /\ d = f p.
Proof.
  induction X as [| a X IH]; intros s d i; simpl.
  - split; [contradiction |].
    intros [p [Hp _]]; destruct (i - s)%nat; discriminate.
  - rewrite IH; split.
    + intros [E | [p [Hp [Hs Hd]]]].
      * injection E as <- <-; exists a; rewrite Nat.sub_diag; auto.
      * exists p; replace (i - s)%nat with (S (i - S s)) by lia; simpl.
        repeat split; [exact Hp | lia | exact Hd].
    + intros [p [Hp [Hs Hd]]].
      destruct (i - s)%nat as [| m] eqn:E; simpl in Hp.
      * left; injection Hp as <-; f_equal; [symmetry; exact Hd | lia].
      * right; exists p; replace (i - S s)%nat with m by lia.
        repeat split; [exact Hp | lia | exact Hd].
Qed.

Lemma map_snd_combine_seq (A : Type) (f : A -> Q) (X : list A) (s : nat) :
  map snd (combine (map f X) (seq s (length X))) = seq s (length X).
Proof.
  revert s; induction X as [| a X IH]; intros s; simpl; [| rewrite IH];
    reflexivity.
Qed.

Lemma NoDup_firstn (A : Type) (k : nat) (l : list A) :
  NoDup l -> NoDup (firstn k l).
Proof.
  intros H; rewrite <- (firstn_skipn k l) in H.
  eapply NoDup_app_remove_r; exact H.
Qed.

Lemma In_firstn (A : Type) (k : nat) (l : list A) (x : A) :
  In x (firstn k l) -> In x l.
Proof.
  intros H; rewrite <- (firstn_skipn k l); apply in_or_app; left; exact H.
Qed.

(** [nearest] returns [k] distinct positions of the training set, and no
    position left out is strictly nearer to the query than one returned. *)
Lemma nearest_spec (k : nat) (X : list neighbors.point) (x : neighbors.point) :
  (k <= length X)%nat ->
  let ind := neighbors.nearest k X x in
  length ind = k /\ NoDup ind /\
  (forall i, In i ind -> (i < length X)%nat) /\
  (forall i j p q, In i ind -> ~ In j ind ->
     nth_error X i = Some p -> nth_error X j = Some q ->
     neighbors.sqdist p x <= neighbors.sqdist q x).
Proof.
  intros Hk ind; unfold neighbors.nearest in ind.
  set (f := fun p => neighbors.sqdist p x) in *.
  set (L0 := combine (map f X) (seq 0 (length X))) in *.
  set (L := DistSort.sort L0) in *.
  assert (HP : Permutation L0 L) by apply DistSort.Permuted_sort.
  assert (Hsnd : Permutation (seq 0 (length X)) (map snd L)).
  { unfold L0 in HP; rewrite <- (map_snd_combine_seq f X 0).
    apply Permutation_map; exact HP. }
  assert (Hind : ind = firstn k (map snd L)) by (unfold ind; symmetry; apply firstn_map).
  assert (HinL : forall i, In i ind -> In i (map snd L))
    by (intros i Hi; rewrite Hind in Hi; eapply In_firstn; exact Hi).
  split; [| split; [| split]].
  - unfold ind; rewrite length_map, length_firstn.
    rewrite <- (Permutation_length HP); unfold L0.
    rewrite length_combine, length_map, length_seq; lia.
  - rewrite Hind; apply NoDup_firstn.
    eapply Permutation_NoDup; [exact Hsnd | apply seq_NoDup].
  - intros i Hi; apply HinL in Hi.
    apply (Permutation_in _ (Permutation_sym Hsnd)), in_seq in Hi; lia.
  - intros i j p q Hi Hj Hp Hq.
    unfold ind in Hi; apply in_map_iff in Hi; destruct Hi as [[d i'] [E Hi]].
    simpl in E; subst i'.
    assert (Hd : d = f p).
    { apply In_firstn in Hi.
      apply (Permutation_in _ (Permutation_sym HP)) in Hi.
      unfold L0 in Hi; apply in_combine_seq in Hi.
      destruct Hi as [p' [Hp' [_ Hd]]].
      rewrite Nat.sub_0_r, Hp in Hp'; injection Hp' as <-; exact Hd. }
    assert (Hq' : In (f q, j) L).
    { apply (Permutation_in _ HP); unfold L0; apply in_combine_seq.
      exists q; rewrite Nat.sub_0_r; repeat split; [exact Hq | lia]. }
    rewrite <- (firstn_skipn k L) in Hq'.
    apply in_app_or in Hq'; destruct Hq' as [Hq' | Hq'].
    + exfalso; apply Hj; unfold ind.
      apply in_map_iff; exists (f q, j); split; [reflexivity | exact Hq'].
    + pose proof (DistSort_StronglySorted L0) as Hs; fold L in Hs.
      rewrite <- (firstn_skipn k L) in Hs.
      pose proof (@StronglySorted_app_le _ _ _ _ Hs _ _ Hi Hq') as Hle.
      simpl in Hle; rewrite Hd in Hle; exact Hle.
Qed.

Lemma mode_fold (votes cs : list Z) :
  forall acc : Z * nat,
    (snd acc = 0%nat \/ count_occ Z.eq_dec votes (fst acc) = snd acc) ->
    let r := fold_left
               (fun (acc : Z * nat) (c : Z) =>
                  let n := count_occ Z.eq_dec votes c in
                  if (snd acc <? n)%nat then (c, n) else acc) cs acc in
    (snd r = 0%nat \/ count_occ Z.eq_dec votes (fst r) = snd r) /\
    (snd acc <= snd r)%nat /\
    forall c, In c cs -> (count_occ Z.eq_dec votes c <= snd r)%nat.
Proof.
  induction cs as [| c cs IH]; intros acc Hacc; simpl.
  - split; [exact Hacc | split; [lia | contradiction]].
  - set (n := count_occ Z.eq_dec votes c).
    set (acc' := if (snd acc <? n)%nat then (c, n) else acc).
    assert (H' : (snd acc' = 0%nat \/ count_occ Z.eq_dec votes (fst acc') = snd acc')
                 /\ (snd acc <= snd acc')%nat /\ (n <= snd acc')%nat).
    { unfold acc'; destruct (Nat.ltb_spec (snd acc) n) as [Hlt | Hge];
        cbn [fst snd].
      - split; [right; reflexivity | split; [apply Nat.lt_le_incl; exact Hlt | apply Nat.le_refl]].
      - split; [exact Hacc | split; [apply Nat.le_refl | exact Hge]]. }
    destruct H' as [Hinv [Hle Hn]].
    destruct (IH acc' Hinv) as [Hr [Hmono Hall]].
    split; [exact Hr | split; [eapply Nat.le_trans; [exact Hle | exact Hmono] |]].
    intros c' [<- | Hc']; [| apply Hall; exact Hc'].
    eapply Nat.le_trans; [exact Hn | exact Hmono].
Qed.

(** The mode is a label that occurs among the votes and no label has more
    votes. *)
Lemma mode_max (classes votes : list Z) :
  (forall v, In v votes -> In v classes) ->
  votes <> [] ->
  In (neighbors.mode classes votes) votes /\
  forall c, (count_occ Z.eq_dec votes c
             <= count_occ Z.eq_dec votes (neighbors.mode classes votes))%nat.
Proof.
  intros Hsub Hne; unfold neighbors.mode.
  destruct (mode_fold votes classes (0%Z, 0%nat) (or_introl eq_refl))
    as [Hr [_ Hall]].
  set (r := fold_left _ classes (0%Z, 0%nat)) in *.
  assert (Hpos : (0 < snd r)%nat).
  { destruct votes as [| v votes]; [congruence |].
    assert (Hv : In v (v :: votes)) by (left; reflexivity).
    pose proof (Hall v (Hsub v Hv)) as Hc.
    apply (count_occ_In Z.eq_dec) in Hv; lia. }
  destruct Hr as [Hr | Hr]; [lia |].
  split.
  - apply (count_occ_In Z.eq_dec); lia.
  - intros c; rewrite Hr.
    destruct (in_dec Z.eq_dec c votes) as [Hin | Hnot].
    + apply Hall, Hsub; exact Hin.
    + apply (count_occ_not_In Z.eq_dec) in Hnot; lia.
Qed.

Lemma In_unique (y : list Z) (v : Z) : In v y -> In v (neighbors.unique y).
Proof.
  intros H; unfold neighbors.unique.
  eapply Permutation_in; [apply ZSort.Permuted_sort |].
  apply nodup_In; exact H.
Qed.

(** One prediction of the fitted classifier is a majority vote among [k]
    nearest training rows. *)
Lemma prediction_is_knn (k : nat) (X : list neighbors.point) (y : list Z)
  (x : neighbors.point) :
  length X = length y -> (1 <= k <= length X)%nat ->
  is_knn_prediction k X y x
    (neighbors.mode (neighbors.unique y)
       (map (fun i => nth i y 0%Z) (neighbors.nearest k X x))).
Proof.
  intros Hxy Hk.
  destruct (@nearest_spec k X x (proj2 Hk)) as [Hlen [Hnd [Hrange Hnear]]].
  exists (neighbors.nearest k X x).
  split; [exact Hlen | split; [exact Hnd | split; [exact Hrange |]]].
  split; [exact Hnear |].
  cbv zeta; apply mode_max.
  - intros v Hv; apply in_map_iff in Hv; destruct Hv as [i [<- Hi]].
    apply In_unique, nth_In; rewrite <- Hxy; apply Hrange; exact Hi.
  - intros E; apply (f_equal (@length _)) in E.
    rewrite length_map, Hlen in E; simpl in E; lia.
Qed.

(** The agreeing positions the score counts are the correct predictions. *)
Lemma count_equal_correct (y_true y_pred : list Z) :
  neighbors.count_equal y_true y_pred = correct_predictions y_true y_pred.
Proof.
  unfold neighbors.count_equal.
  revert y_pred; induction y_true as [| l ls IH]; intros [| p ps]; simpl;
    try reflexivity.
  rewrite <- IH.
  destruct (Z.eq_dec l p) as [-> | Hne].
  - rewrite Z.eqb_refl; reflexivity.
  - apply Z.eqb_neq in Hne; rewrite Hne; reflexivity.
Qed.

Lemma sqdist_squared_euclidean (p q : neighbors.point) :
  neighbors.sqdist p q = squared_euclidean p q.
Proof. reflexivity. Qed.

(** ** One fit-and-score *)

Section Evaluate.

Variables (train_data test_data : list neighbors.point).
Variables (train_labels test_labels : list Z).

Let eval := evaluate train_data test_data train_labels test_labels.

(** The predictions of the classifier fitted with [k] on the test rows. *)
Let y_pred (k : nat) : list Z :=
  map (fun x => neighbors.mode (neighbors.unique train_labels)
                  (map (fun i => nth i train_labels 0%Z)
                       (neighbors.nearest k train_data x)))
      test_data.

Lemma evaluate_value (k : nat) :
  length train_data = length train_labels ->
  (1 <= k <= length train_data)%nat ->
  length test_data = length test_labels ->
  test_data <> [] ->
  eval k = Ok (inject_Z (Z.of_nat (neighbors.count_equal test_labels (y_pred k)))
               / inject_Z (Z.of_nat (length test_labels))).
Proof.
  intros Htr Hk Hte Hne.
  assert (Hn : (0 < length test_data)%nat)
    by (destruct test_data; simpl; [congruence | lia]).
  unfold eval, evaluate, neighbors.fit, neighbors.new; cbn [neighbors.n_neighbors].
  destruct (Nat.eqb_spec (length train_data) 0) as [E | _]; [lia |].
  destruct (Nat.eqb_spec (length train_data) (length train_labels)) as [_ | E];
    [| contradiction].
  destruct (Nat.eqb_spec k 0) as [E | _]; [lia |].
  cbn [negb bind].
  unfold neighbors.score, neighbors.predict, neighbors.kneighbors.
  cbn [neighbors.fitted neighbors.n_neighbors].
  destruct (Nat.eqb_spec (length test_data) 0) as [E | _]; [lia |].
  destruct (Nat.ltb_spec (length train_data) k) as [E | _]; [lia |].
  cbn [bind]; rewrite map_map; fold (y_pred k).
  unfold neighbors.accuracy_score.
  assert (Hl : length test_labels = length (y_pred k))
    by (unfold y_pred; rewrite length_map; symmetry; exact Hte).
  rewrite <- Hl, Nat.eqb_refl; reflexivity.
Qed.

Lemma evaluate_raises (k : nat) :
  (length train_data < k)%nat -> eval k = Raise ValueError.
Proof.
  intros Hk.
  unfold eval, evaluate, neighbors.fit, neighbors.new; cbn [neighbors.n_neighbors].
  destruct (length train_data =? 0)%nat; [reflexivity |].
  destruct (negb (length train_data =? length train_labels)%nat); [reflexivity |].
  destruct (k =? 0)%nat; [reflexivity |].
  cbn [bind].
  unfold neighbors.score, neighbors.predict, neighbors.kneighbors.
  cbn [neighbors.fitted neighbors.n_neighbors].
  destruct (length test_data =? 0)%nat; [reflexivity |].
  destruct (Nat.ltb_spec (length train_data) k) as [_ | E]; [reflexivity | lia].
Qed.

Lemma y_pred_is_knn (k : nat) :
  length train_data = length train_labels ->
  (1 <= k <= length train_data)%nat ->
  Forall2 (is_knn_prediction k train_data train_labels) test_data (y_pred k).
Proof.
  intros Htr Hk; unfold y_pred.
  induction test_data as [| x xs IH]; simpl; constructor; [| exact IH].
  apply prediction_is_knn; assumption.
Qed.

(** At a valid [k] the score is the accuracy the specification asks for. *)
Lemma evaluate_is_knn_accuracy (k : nat) :
  length train_data = length train_labels ->
  (1 <= k <= length train_data)%nat ->
  length test_data = length test_labels ->
  test_data <> [] ->
  exists acc, eval k = Ok acc /\
    is_knn_accuracy k train_data train_labels test_data test_labels acc.
Proof.
  intros Htr Hk Hte Hne.
  eexists; split; [apply evaluate_value; assumption |].
  exists (y_pred k); split; [apply y_pred_is_knn; assumption |].
  rewrite count_equal_correct.
  replace (length (y_pred k)) with (length test_labels)
    by (unfold y_pred; rewrite length_map; symmetry; exact Hte).
  reflexivity.
Qed.

End Evaluate.

(** ** Claims about cells 12 and 14 *)

Lemma Forall2_eval_map (A B : Type) (P : A -> B -> Prop) (g : A -> B)
  (ks : list A) :
  (forall k, In k ks -> P k (g k)) -> Forall2 P ks (map g ks).
Proof.
  induction ks as [| k ks IH]; intros H; simpl; constructor.
  - apply H; left; reflexivity.
  - apply IH; intros k' Hk'; apply H; right; exact Hk'.
Qed.


(** On a well-shaped partition with at least 199 training rows every [k]
    of the loop is scored and cell 14 returns the k's against the scores. *)
Lemma cell_14_returns (train_data test_data : list neighbors.point)
  (train_labels test_labels : list Z) :
  length train_data = length train_labels ->
  (199 <= length train_data)%nat ->
  length test_data = length test_labels ->
  test_data <> [] ->
  cell_14 train_data test_data train_labels test_labels
  = Ok (combine (seq 1 199)
          (map (score_at train_data test_data train_labels test_labels)
               (seq 1 199))).
Proof.
  intros Htr Hn Hte Hne.
  set (g := score_at train_data test_data train_labels test_labels).
  assert (Hscores : scores train_data test_data train_labels test_labels
                    = Ok (map g (seq 1 199))).
  { unfold scores; change (range 1 200) with (seq 1 199).
    apply (@for_sweep_ok train_data test_data train_labels test_labels
             (seq 1 199) [] (map g (seq 1 199))).
    apply Forall2_eval_map; intros k Hk; apply in_seq in Hk.
    unfold g, score_at.
    rewrite evaluate_value by (try assumption; lia); reflexivity. }
  unfold cell_14; rewrite Hscores; cbn [bind].
  change (range 1 200) with (seq 1 199).
  rewrite length_map, Nat.eqb_refl; reflexivity.
Qed.

(** *** With any neighbour search *)

(** The search written out in [neighbors] is one the library may make. *)
Lemma nearest_is_neighbour_search : is_neighbour_search neighbors.nearest.
Proof. intros k X x Hk; apply nearest_spec; exact Hk. Qed.

(** With that search the cells of [knn] are the cells above. *)
Lemma knn_cell_14_nearest (train_data test_data : list neighbors.point)
  (train_labels test_labels : list Z) :
  knn.cell_14 neighbors.nearest train_data test_data train_labels test_labels
  = cell_14 train_data test_data train_labels test_labels.
Proof. reflexivity. Qed.

Section AnySearch.

Variable search : nat -> list neighbors.point -> neighbors.point -> list nat.
Hypothesis search_nearest : is_neighbour_search search.


Variables (train_data test_data : list neighbors.point).
Variables (train_labels test_labels : list Z).

Let eval := knn.evaluate search train_data test_data train_labels test_labels.
Let body := knn.sweep_body search train_data test_data train_labels test_labels.

(** The predictions of the classifier fitted with [k] on the test rows. *)
Let y_pred (k : nat) : list Z :=
  map (fun x => neighbors.mode (neighbors.unique train_labels)
                  (map (fun i => nth i train_labels 0%Z)
                       (search k train_data x)))
      test_data.







End AnySearch.



(** C9.  Whenever cell 14 returns its points, cell 12 returns a score as
    well and that score is the accuracy of the fifth point, the one for
    [k = 5]. *)
Theorem k5_matches_sweep (train_data test_data : list neighbors.point)
  (train_labels test_labels : list Z) (curve : list (nat * Q)) :
  cell_14 train_data test_data train_labels test_labels = Ok curve ->
  exists model_score : Q,
    cell_12 train_data test_data train_labels test_labels = Ok model_score /\
    nth_error curve 4 = Some (5%nat, model_score).
Proof.
  intros H; unfold cell_14 in H.
  destruct (scores train_data test_data train_labels test_labels)
    as [ss | e] eqn:Hs; cbn [bind] in H; [| discriminate].
  destruct (negb (length (range 1 200) =? length ss)%nat); [discriminate |].
  injection H as <-.
  unfold scores in Hs; apply for_sweep_inv in Hs.
  destruct Hs as [vs [-> Hvs]]; cbn [app].
  change (range 1 200)
    with (1 :: 2 :: 3 :: 4 :: 5 :: seq 6 194)%nat in *.
  do 5 (inversion Hvs as [| ? ? ? ? ? Hvs']; subst; clear Hvs;
        rename Hvs' into Hvs).
  rewrite cell_12_evaluate.
  eexists; split; [eassumption | reflexivity].
Qed.

Lemma k5_matches_sweep_witness :
  exists model_score : Q,
    cell_12 line_train_data line_test_data line_train_labels line_test_labels
      = Ok model_score /\
    nth_error
      (combine (seq 1 199)
         (map (score_at line_train_data line_test_data
                        line_train_labels line_test_labels) (seq 1 199))) 4
    = Some (5%nat, model_score).
Proof.
  apply (@k5_matches_sweep line_train_data line_test_data
           line_train_labels line_test_labels).
  apply cell_14_returns.
  - reflexivity.
  - unfold line_train_data; rewrite length_map, length_seq; lia.
  - reflexivity.
  - discriminate.
Defined.

Example pair_k1 :
  evaluate pair_train_data pair_test_data pair_train_labels pair_test_labels 1
  = Ok (1 / 1).
Proof. reflexivity. Qed.

(** With both training rows voting, 0 against 1, the tie goes to the
    smaller label. *)
Example pair_k2_predicts :
  (c <- neighbors.fit (neighbors.new 2) pair_train_data pair_train_labels ;;
   neighbors.predict c pair_test_data) = Ok [0%Z].
Proof. reflexivity. Qed.

(** C6, as claimed, fails: with two training rows, [k = 2] (the size of
    the training set) is scored and raises nothing, [k = 3] raises, and the
    loop does not go on to the next [k]: cell 14 as a whole ends in that
    exception. *)
Lemma sweep_not_resumed :
  evaluate pair_train_data pair_test_data pair_train_labels pair_test_labels 2
    = Ok (1 / 1) /\
  evaluate pair_train_data pair_test_data pair_train_labels pair_test_labels 3
    = Raise ValueError /\
  cell_14 pair_train_data pair_test_data pair_train_labels pair_test_labels
    = Raise ValueError /\
  ~ (exists curve,
       cell_14 pair_train_data pair_test_data pair_train_labels pair_test_labels
       = Ok curve).
Proof.
  repeat split; try reflexivity.
  intros [curve H]; vm_compute in H; discriminate H.
Qed.

(** C6, amended.  On a well-shaped partition every [k] larger than the
    number of training rows raises [ValueError], every [k] from 1 up to
    and including the number of training rows is scored, and when fewer
    than 199 training rows are given the loop stops at the first [k] that
    raises: cell 14 ends in [ValueError] and returns no point. *)
Theorem sweep_aborts_beyond_training_size
  (train_data test_data : list neighbors.point)
  (train_labels test_labels : list Z) :
  length train_data = length train_labels ->
  train_data <> [] ->
  length test_data = length test_labels ->
  test_data <> [] ->
  (forall k, (length train_data < k)%nat ->
     evaluate train_data test_data train_labels test_labels k
     = Raise ValueError) /\
  (forall k, (1 <= k <= length train_data)%nat ->
     exists s, evaluate train_data test_data train_labels test_labels k = Ok s) /\
  ((length train_data < 199)%nat ->
   cell_14 train_data test_data train_labels test_labels = Raise ValueError).
Proof.
  intros Htr Hne Hte Hne'.
  assert (Hpos : (0 < length train_data)%nat)
    by (destruct train_data; simpl; [congruence | lia]).
  assert (Hok : forall k, (1 <= k <= length train_data)%nat ->
            exists s, evaluate train_data test_data train_labels test_labels k
                      = Ok s).
  { intros k Hk; eexists; apply evaluate_value; assumption. }
  split; [intros k Hk; apply evaluate_raises; exact Hk | split; [exact Hok |]].
  intros Hshort.
  set (n := length train_data) in *.
  unfold cell_14, scores.
  assert (Hrange : range 1 200 = seq 1 n ++ S n :: seq (S (S n)) (198 - n)).
  { unfold range; change (200 - 1)%nat with 199%nat.
    replace 199%nat with (n + S (198 - n))%nat at 1 by lia.
    rewrite seq_app; reflexivity. }
  rewrite Hrange.
  rewrite (@for_sweep_raise train_data test_data train_labels test_labels
             (seq 1 n) (seq (S (S n)) (198 - n)) (S n) ValueError).
  - reflexivity.
  - apply Forall_forall; intros k Hk; apply in_seq in Hk; apply Hok; lia.
  - apply evaluate_raises; fold n; lia.
Qed.

Lemma sweep_aborts_beyond_training_size_witness :
  (forall k, (length pair_train_data < k)%nat ->
     evaluate pair_train_data pair_test_data pair_train_labels pair_test_labels k
     = Raise ValueError) /\
  (forall k, (1 <= k <= length pair_train_data)%nat ->
     exists s,
       evaluate pair_train_data pair_test_data pair_train_labels
                pair_test_labels k = Ok s) /\
  ((length pair_train_data < 199)%nat ->
   cell_14 pair_train_data pair_test_data pair_train_labels pair_test_labels
   = Raise ValueError).
Proof.
  apply (@sweep_aborts_beyond_training_size pair_train_data pair_test_data
           pair_train_labels pair_test_labels).
  - reflexivity.
  - discriminate.
  - reflexivity.
  - discriminate.
Defined.


(** * Further properties of the cells *)

(** ** Cell 4: more on the median and the labels *)

Lemma middle_in_column (l : list Z) (j : nat) :
  (j < length l)%nat -> In (nth j (ZSort.sort l) 0%Z) l.
Proof.
  intros Hj.
  apply (Permutation_in _ (Permutation_sym (ZSort.Permuted_sort l))).
  apply nth_In; rewrite sort_length; exact Hj.
Qed.

Lemma half_lt (n : nat) : (0 < n)%nat -> (n / 2 < n)%nat.
Proof. intros H; apply Nat.div_lt; lia. Qed.

Lemma ge_median_of_upper_bound (l : list Z) (x : Z) :
  l <> [] ->
  (forall y, In y l -> (y <= x)%Z) ->
  np.ge x (pd.median l) = true.
Proof.
  intros Hl Hmax.
  assert (Hn : (0 < length l)%nat) by (destruct l; simpl; [congruence | lia]).
  rewrite (ge_median x Hl).
  pose proof (half_lt Hn) as Hk.
  pose proof (Hmax _ (middle_in_column l Hk)) as H1.
  destruct (Nat.odd (length l)); apply Z.leb_le; [exact H1 |].
  assert (Hk' : (length l / 2 - 1 < length l)%nat) by lia.
  pose proof (Hmax _ (middle_in_column l Hk')) as H2.
  lia.
Qed.

(** X1.  A record whose count is at least every count of the column is
    labelled 1. *)
Theorem maximum_is_viral (retweet_count : list Z) (i : nat) (x : Z) :
  nth_error retweet_count i = Some x ->
  (forall y, In y retweet_count -> (y <= x)%Z) ->
  nth_error (is_viral retweet_count) i = Some 1%Z.
Proof.
  intros Hi Hmax.
  assert (Hl : retweet_count <> []) by (intros ->; destruct i; discriminate).
  rewrite is_viral_map, nth_error_map, Hi; cbn [option_map].
  unfold median_retweets; rewrite (ge_median_of_upper_bound Hl Hmax).
  reflexivity.
Qed.

Lemma maximum_is_viral_witness :
  nth_error (is_viral [5; 1; 9; 9; 2; 0]%Z) 3 = Some 1%Z.
Proof.
  apply (@maximum_is_viral [5; 1; 9; 9; 2; 0]%Z 3%nat 9%Z).
  - reflexivity.
  - intros y Hy; simpl in Hy; lia.
Defined.

(** X2.  When all records have the same count, every record is labelled
    1. *)
Theorem constant_column_all_viral (retweet_count : list Z) (c : Z) :
  (forall y, In y retweet_count -> y = c) ->
  is_viral retweet_count = map (fun _ => 1%Z) retweet_count.
Proof.
  intros Hc; rewrite is_viral_map.
  apply map_ext_in; intros x Hx.
  assert (Hl : retweet_count <> []) by (intros ->; contradiction).
  unfold median_retweets; rewrite (@ge_median_of_upper_bound retweet_count x Hl).
  - reflexivity.
  - intros y Hy; rewrite (Hc y Hy), (Hc x Hx); lia.
Qed.

Lemma constant_column_all_viral_witness :
  is_viral [4; 4; 4]%Z = map (fun _ => 1%Z) [4; 4; 4]%Z.
Proof.
  apply (@constant_column_all_viral [4; 4; 4]%Z 4%Z).
  intros y Hy; simpl in Hy; lia.
Defined.

(** X3.  On a column of counts within the range in which float64 is
    exact, the median lies between any two bounds of the column. *)
Theorem median_within_bounds (retweet_count : list Z) (lo hi : Z) :
  retweet_count <> [] ->
  float64_exact retweet_count ->
  (forall y, In y retweet_count -> (lo <= y <= hi)%Z) ->
  exists m : Q,
    median_retweets retweet_count = Fin m /\
    inject_Z lo <= m /\ m <= inject_Z hi.
Proof.
  intros Hl _ Hb.
  assert (Hn : (0 < length retweet_count)%nat)
    by (destruct retweet_count; simpl; [congruence | lia]).
  pose proof (half_lt Hn) as Hk.
  pose proof (Hb _ (middle_in_column retweet_count Hk)) as H1.
  assert (Hk' : (length retweet_count / 2 - 1 < length retweet_count)%nat) by lia.
  pose proof (Hb _ (middle_in_column retweet_count Hk')) as H2.
  unfold median_retweets; rewrite (median_value Hl).
  eexists; split; [reflexivity |].
  destruct (Nat.odd (length retweet_count));
    unfold Qle, Qdiv, Qmult, Qplus, Qinv, inject_Z;
    cbn -[Z.mul Z.add Nat.div]; lia.
Qed.

Lemma median_within_bounds_witness :
  exists m : Q,
    median_retweets [4; 1; 3; 2]%Z = Fin m /\
    inject_Z 1 <= m /\ m <= inject_Z 4.
Proof.
  apply (@median_within_bounds [4; 1; 3; 2]%Z 1%Z 4%Z).
  - discriminate.
  - intros x Hx; rewrite two_52; simpl in Hx; lia.
  - intros y Hy; simpl in Hy; lia.
Defined.

Lemma StronglySorted_map_monotone (f : Z -> Z) (s : list Z) :
  (forall a b, (a <= b)%Z -> (f a <= f b)%Z) ->
  StronglySorted Z.le s -> StronglySorted Z.le (map f s).
Proof.
  intros Hf; induction 1 as [| a s Hs IH Ha]; simpl; constructor; auto.
  rewrite Forall_forall in *; intros y Hy.
  apply in_map_iff in Hy; destruct Hy as [x [<- Hx]]; apply Hf, Ha, Hx.
Qed.

Lemma sort_map_monotone (f : Z -> Z) (l : list Z) :
  (forall a b, (a <= b)%Z -> (f a <= f b)%Z) ->
  ZSort.sort (map f l) = map f (ZSort.sort l).
Proof.
  intros Hf; apply StronglySorted_unique.
  - apply StronglySorted_sort_le.
  - apply StronglySorted_map_monotone; [exact Hf | apply StronglySorted_sort_le].
  - eapply Permutation_trans;
      [apply Permutation_sym, ZSort.Permuted_sort |].
    apply Permutation_map, ZSort.Permuted_sort.
Qed.

Lemma nth_map_in_range (f : Z -> Z) (s : list Z) (j : nat) :
  (j < length s)%nat -> nth j (map f s) 0%Z = f (nth j s 0%Z).
Proof.
  intros Hj; rewrite (nth_indep _ 0%Z (f 0%Z)) by (rewrite length_map; exact Hj).
  apply map_nth.
Qed.

(** X4.  Rescaling every count by one positive factor and shifting it by
    one offset changes no label, as long as the counts before and after
    stay within the range in which float64 is exact. *)
Theorem labels_invariant_under_rescaling (retweet_count : list Z) (a b : Z) :
  (0 < a)%Z ->
  float64_exact retweet_count ->
  float64_exact (map (fun x => a * x + b)%Z retweet_count) ->
  is_viral (map (fun x => a * x + b)%Z retweet_count) = is_viral retweet_count.
Proof.
  intros Ha _ _.
  set (f := fun x => (a * x + b)%Z).
  assert (Hf : forall u v, (u <= v)%Z -> (f u <= f v)%Z) by (intros u v H; unfold f; nia).
  rewrite !is_viral_map, map_map.
  apply map_ext_in; intros x Hx.
  assert (Hl : retweet_count <> []) by (intros ->; contradiction).
  assert (Hl' : map f retweet_count <> [])
    by (intros E; apply map_eq_nil in E; contradiction).
  assert (Hn : (0 < length retweet_count)%nat)
    by (destruct retweet_count; simpl; [congruence | lia]).
  assert (Hge : np.ge (f x) (pd.median (map f retweet_count))
                = np.ge x (pd.median retweet_count)).
  { rewrite (ge_median (f x) Hl'), (ge_median x Hl).
    rewrite length_map, (@sort_map_monotone f retweet_count Hf).
    pose proof (half_lt Hn) as Hk.
    rewrite !nth_map_in_range by (rewrite sort_length; lia).
    destruct (Nat.odd (length retweet_count));
      apply eq_iff_eq_true; rewrite !Z.leb_le; unfold f; nia. }
  unfold median_retweets; rewrite Hge; reflexivity.
Qed.

Lemma labels_invariant_under_rescaling_witness :
  is_viral (map (fun x => 3 * x + 7)%Z [4; 1; 3; 2]%Z) = is_viral [4; 1; 3; 2]%Z.
Proof.
  apply (@labels_invariant_under_rescaling [4; 1; 3; 2]%Z 3%Z 7%Z);
    [lia | |]; intros x Hx; rewrite two_52; simpl in Hx; lia.
Defined.

(** ** Cell 6: the feature columns *)

Module frame_facts.

Import String.
Import frame.
Local Open Scope string_scope.

Lemma getitem_cases (d : list (string * Z)) (key : string) :
  (exists v, getitem d key = Got v /\ In (key, v) d) \/
  (getitem d key = KeyError key /\ ~ In key (map fst d)).
Proof.
  induction d as [| [k v] d IH]; simpl.
  - right; split; [reflexivity | tauto].
  - destruct (String.eqb_spec k key) as [-> | Hne].
    + left; exists v; split; [reflexivity | left; reflexivity].
    + destruct IH as [[v' [Hv Hin]] | [Hk Hnot]].
      * left; exists v'; split; [exact Hv | right; exact Hin].
      * right; split; [exact Hk | intros [E | Hin]; [contradiction | tauto]].
Qed.

Lemma each_row_returns (A : Type) (f : tweet -> keyed A) (g : tweet -> A)
  (rows : list tweet) :
  (forall t, In t rows -> f t = Got (g t)) ->
  each_row f rows = Got (map g rows).
Proof.
  induction rows as [| t rows IH]; intros H; simpl; [reflexivity |].
  rewrite (H t (or_introl eq_refl)); simpl.
  rewrite IH by (intros t' Ht'; apply H; right; exact Ht'); reflexivity.
Qed.

Lemma each_row_rows (A : Type) (f : tweet -> keyed A) (rows : list tweet) :
  forall col, each_row f rows = Got col ->
    List.length col = List.length rows /\
    forall i t, nth_error rows i = Some t ->
      exists a, nth_error col i = Some a /\ f t = Got a.
Proof.
  induction rows as [| t rows IH]; intros col H; simpl in H.
  - injection H as <-; split; [reflexivity |].
    intros i t' Hi; destruct i; discriminate.
  - destruct (f t) as [a | k |] eqn:Ef; simpl in H; try discriminate.
    destruct (each_row f rows) as [col' | k |] eqn:Ea; simpl in H;
      try discriminate.
    injection H as <-.
    destruct (IH col' eq_refl) as [Hlen Hrow].
    split; [simpl; rewrite Hlen; reflexivity |].
    intros [| i] t' Hi; simpl in Hi.
    + injection Hi as <-; exists a; split; [reflexivity | exact Ef].
    + apply Hrow; exact Hi.
Qed.

Lemma each_row_getitem (key : string) (rows : list tweet) :
  (exists col, each_row (fun t => getitem (user t) key) rows = Got col /\
               forall t, In t rows -> In key (map fst (user t))) \/
  (each_row (fun t => getitem (user t) key) rows = KeyError key /\
   exists t, In t rows /\ ~ In key (map fst (user t))).
Proof.
  induction rows as [| t rows IH]; simpl.
  - left; eexists; split; [reflexivity | contradiction].
  - destruct (getitem_cases (user t) key) as [[v [Hv Hin]] | [Hk Hnot]].
    + rewrite Hv; simpl.
      destruct IH as [[col [Hc Hall]] | [Hk [t' [Ht' Hnot]]]].
      * left; rewrite Hc; simpl; eexists; split; [reflexivity |].
        intros t' [<- | Ht']; [| apply Hall; exact Ht'].
        apply in_map_iff; exists (key, v); split; [reflexivity | exact Hin].
      * right; rewrite Hk; simpl; split; [reflexivity |].
        exists t'; split; [right; exact Ht' | exact Hnot].
    + right; rewrite Hk; simpl; split; [reflexivity |].
      exists t; split; [left; reflexivity | exact Hnot].
Qed.

(** On a frame with at least one row the column that [apply] returns is
    stored as it is. *)
Lemma apply_setitem (A : Type) (f : tweet -> keyed A) (rows : list tweet) :
  rows <> [] -> kbind (apply f rows) setitem = each_row f rows.
Proof.
  intros H; destruct rows as [| t rows]; [congruence |].
  unfold apply; destruct (each_row f (t :: rows)); reflexivity.
Qed.

(** X5.  When the frame has at least one row and every user object has
    both counters, the cell returns three columns with one entry per row
    of [all_tweets]; at each row the first is the number of code points of
    that row's text and the other two are the values stored under
    [followers_count] and [friends_count] in that row's user object. *)
Theorem cell_6_returns (all_tweets : list tweet) :
  all_tweets <> [] ->
  (forall t, In t all_tweets ->
     In "followers_count" (map fst (user t)) /\
     In "friends_count" (map fst (user t))) ->
  exists tweet_length followers_count friends_count,
    cell_6 all_tweets = Got (tweet_length, followers_count, friends_count) /\
    List.length tweet_length = List.length all_tweets /\
    List.length followers_count = List.length all_tweets /\
    List.length friends_count = List.length all_tweets /\
    forall i t, nth_error all_tweets i = Some t ->
      nth_error tweet_length i = Some (List.length (text t)) /\
      (exists v, nth_error followers_count i = Some v /\
                 In ("followers_count", v) (user t)) /\
      (exists v, nth_error friends_count i = Some v /\
                 In ("friends_count", v) (user t)).
Proof.
  intros Hne Hkeys; unfold cell_6.
  rewrite !apply_setitem by exact Hne.
  rewrite (each_row_returns _ (fun t => List.length (text t)))
    by (intros; reflexivity); simpl.
  destruct (each_row_getitem "followers_count" all_tweets)
    as [[fo [Hfo _]] | [_ [t [Ht Hnot]]]];
    [| exfalso; apply Hnot, (Hkeys t Ht)].
  destruct (each_row_getitem "friends_count" all_tweets)
    as [[fr [Hfr _]] | [_ [t [Ht Hnot]]]];
    [| exfalso; apply Hnot, (Hkeys t Ht)].
  rewrite Hfo, Hfr; simpl.
  destruct (each_row_rows _ _ Hfo) as [Lfo Rfo].
  destruct (each_row_rows _ _ Hfr) as [Lfr Rfr].
  do 3 eexists; split; [reflexivity |].
  split; [apply length_map | split; [exact Lfo | split; [exact Lfr |]]].
  intros i t Hi; split; [rewrite nth_error_map, Hi; reflexivity | split].
  - destruct (Rfo i t Hi) as [v [Hv Hg]]; exists v; split; [exact Hv |].
    destruct (getitem_cases (user t) "followers_count")
      as [[v' [Hv' Hin]] | [Hk _]]; [| congruence].
    rewrite Hv' in Hg; injection Hg as <-; exact Hin.
  - destruct (Rfr i t Hi) as [v [Hv Hg]]; exists v; split; [exact Hv |].
    destruct (getitem_cases (user t) "friends_count")
      as [[v' [Hv' Hin]] | [Hk _]]; [| congruence].
    rewrite Hv' in Hg; injection Hg as <-; exact Hin.
Qed.


Lemma cell_6_returns_witness :
  exists tweet_length followers_count friends_count,
    cell_6 [ {| retweet_count := Some 7%Z; text := [82; 84; 32]%N;
                user := [("followers_count", 215%Z); ("friends_count", 335%Z)] |} ]
      = Got (tweet_length, followers_count, friends_count) /\
    List.length tweet_length = 1%nat /\
    List.length followers_count = 1%nat /\
    List.length friends_count = 1%nat /\
    forall i t,
      nth_error [ {| retweet_count := Some 7%Z; text := [82; 84; 32]%N;
                     user := [("followers_count", 215%Z);
                              ("friends_count", 335%Z)] |} ] i = Some t ->
      nth_error tweet_length i = Some (List.length (text t)) /\
      (exists v, nth_error followers_count i = Some v /\
                 In ("followers_count", v) (user t)) /\
      (exists v, nth_error friends_count i = Some v /\
                 In ("friends_count", v) (user t)).
Proof.
  apply (@cell_6_returns
           [ {| retweet_count := Some 7%Z; text := [82; 84; 32]%N;
                user := [("followers_count", 215%Z); ("friends_count", 335%Z)] |} ]).
  - discriminate.
  - intros t [<- | []]; simpl; auto.
Defined.

Example cell_6_missing_key :
  cell_6 [ {| retweet_count := Some 7%Z; text := [82]%N;
              user := [("followers_count", 3%Z)] |} ]
  = KeyError "friends_count".
Proof. reflexivity. Qed.

Example cell_6_no_rows : cell_6 [] = ValueError.
Proof. reflexivity. Qed.

(** ** Cell 4 on the frame *)





Example cell_4_no_rows : cell_4 [] = KeyError "retweet_count".
Proof. reflexivity. Qed.

Example cell_4_two_rows :
  cell_4 [ {| retweet_count := Some 4%Z; text := [82]%N; user := [] |};
           {| retweet_count := Some 9%Z; text := [84]%N; user := [] |} ]
  = Got (Fin ((0 + 4 + 9) / 2), [0; 1]%Z).
Proof. reflexivity. Qed.

End frame_facts.

(** ** Cell 10: more on the split *)

Lemma split_parts (permutation : nat -> list nat) (A B : Type)
  (X : list A) (y : list B) (X_train X_test : list A)
  (y_train y_test : list B) :
  cell_10 permutation X y = Ok (X_train, X_test, y_train, y_test) ->
  let n := length X in
  let n_test := ((n + 4) / 5)%nat in
  let perm := permutation n in
  length X = length y /\ (n - n_test <> 0)%nat /\
  model_selection.safe_indexing X (np.slice perm n_test (n_test + (n - n_test)))
    = Ok X_train /\
  model_selection.safe_indexing X (np.slice perm 0 n_test) = Ok X_test /\
  model_selection.safe_indexing y (np.slice perm n_test (n_test + (n - n_test)))
    = Ok y_train /\
  model_selection.safe_indexing y (np.slice perm 0 n_test) = Ok y_test.
Proof.
  intros H; cbv zeta.
  unfold cell_10, model_selection.train_test_split in H.
  destruct (Nat.eqb_spec (length X) (length y)) as [Hxy | _];
    cbn [negb] in H; [| discriminate].
  unfold model_selection.validate_shuffle_split in H.
  rewrite n_test_fifth in H.
  destruct (Nat.eqb_spec (length X - (length X + 4) / 5) 0) as [E | E];
    [discriminate |].
  cbn [bind] in H.
  destruct (model_selection.safe_indexing X
              (np.slice (permutation (length X)) ((length X + 4) / 5)
                 ((length X + 4) / 5 + (length X - (length X + 4) / 5))))
    as [xtr | e]; cbn [bind] in H; [| discriminate].
  destruct (model_selection.safe_indexing X
              (np.slice (permutation (length X)) 0 ((length X + 4) / 5)))
    as [xte | e]; cbn [bind] in H; [| discriminate].
  destruct (model_selection.safe_indexing y
              (np.slice (permutation (length X)) ((length X + 4) / 5)
                 ((length X + 4) / 5 + (length X - (length X + 4) / 5))))
    as [ytr | e]; cbn [bind] in H; [| discriminate].
  destruct (model_selection.safe_indexing y
              (np.slice (permutation (length X)) 0 ((length X + 4) / 5)))
    as [yte | e]; cbn [bind] in H; [| discriminate].
  injection H as <- <- <- <-.
  repeat split; assumption.
Qed.

Lemma slice_length (A : Type) (a : list A) (lo hi : nat) :
  (lo <= hi <= length a)%nat -> length (np.slice a lo hi) = (hi - lo)%nat.
Proof.
  intros H; unfold np.slice; rewrite length_firstn, length_skipn; lia.
Qed.

(** X10.  When the split returns, the test partition holds a fifth of the
    records, rounded up, the training partition holds the rest, and
    neither is empty. *)
Theorem split_sizes (permutation : nat -> list nat) (A B : Type)
  (X : list A) (y : list B) (X_train X_test : list A)
  (y_train y_test : list B) :
  length (permutation (length X)) = length X ->
  cell_10 permutation X y = Ok (X_train, X_test, y_train, y_test) ->
  length X_test = ((length X + 4) / 5)%nat /\
  length X_train = (length X - (length X + 4) / 5)%nat /\
  length y_test = length X_test /\
  length y_train = length X_train /\
  (1 <= length X_test)%nat /\ (1 <= length X_train)%nat.
Proof.
  intros Hlen H.
  destruct (split_parts _ _ _ H) as [Hxy [Hne [H1 [H2 [H3 H4]]]]].
  apply safe_indexing_length in H1, H2, H3, H4.
  pose proof (Nat.div_mod_eq (length X + 4) 5) as D1.
  pose proof (Nat.mod_upper_bound (length X + 4) 5) as D2.
  rewrite slice_length in H1, H2, H3, H4 by lia.
  lia.
Qed.

Lemma split_sizes_witness :
  length [50]%Z = ((length [10; 20; 30; 40; 50]%Z + 4) / 5)%nat /\
  length [40; 30; 20; 10]%Z
    = (length [10; 20; 30; 40; 50]%Z - (length [10; 20; 30; 40; 50]%Z + 4) / 5)%nat /\
  length [1]%Z = length [50]%Z /\
  length [0; 1; 0; 1]%Z = length [40; 30; 20; 10]%Z /\
  (1 <= length [50]%Z)%nat /\ (1 <= length [40; 30; 20; 10]%Z)%nat.
Proof.
  apply (@split_sizes (fun n => rev (seq 0 n)) Z Z
           [10; 20; 30; 40; 50]%Z [1; 0; 1; 0; 1]%Z
           [40; 30; 20; 10]%Z [50]%Z [0; 1; 0; 1]%Z [1]%Z);
    reflexivity.
Defined.

Lemma split_raises_on_shape (permutation : nat -> list nat) (A B : Type)
  (X : list A) (y : list B) :
  length X <> length y \/ (length X < 2)%nat ->
  cell_10 permutation X y = Raise ValueError.
Proof.
  intros H; unfold cell_10, model_selection.train_test_split.
  destruct (Nat.eqb_spec (length X) (length y)) as [Hxy | Hxy];
    cbn [negb]; [| reflexivity].
  destruct H as [H | H]; [contradiction |].
  unfold model_selection.validate_shuffle_split; rewrite n_test_fifth.
  pose proof (Nat.div_mod_eq (length X + 4) 5) as D1.
  pose proof (Nat.mod_upper_bound (length X + 4) 5) as D2.
  destruct (Nat.eqb_spec (length X - (length X + 4) / 5) 0) as [E | E];
    [reflexivity | lia].
Qed.

(** X11.  With a generator that returns permutations, the split has two
    outcomes only: it returns when features and labels have one length and
    there are at least two records, and it raises [ValueError] otherwise;
    it never raises [IndexError]. *)
Theorem split_outcome (permutation : nat -> list nat) (A B : Type)
  (X : list A) (y : list B) :
  Permutation (permutation (length X)) (seq 0 (length X)) ->
  (length X = length y /\ (2 <= length X)%nat /\
   exists out, cell_10 permutation X y = Ok out) \/
  ((length X <> length y \/ (length X < 2)%nat) /\
   cell_10 permutation X y = Raise ValueError).
Proof.
  intros HP.
  destruct (Nat.eq_dec (length X) (length y)) as [Hxy | Hxy].
  - destruct (le_lt_dec 2 (length X)) as [Hn | Hn].
    + left; split; [exact Hxy | split; [exact Hn |]].
      apply split_returns; assumption.
    + right; split; [right; exact Hn |].
      apply split_raises_on_shape; right; exact Hn.
  - right; split; [left; exact Hxy |].
    apply split_raises_on_shape; left; exact Hxy.
Qed.

Lemma split_outcome_witness :
  (length [10]%Z = length [1]%Z /\ (2 <= length [10]%Z)%nat /\
   exists out, cell_10 (fun n => rev (seq 0 n)) [10]%Z [1]%Z = Ok out) \/
  ((length [10]%Z <> length [1]%Z \/ (length [10]%Z < 2)%nat) /\
   cell_10 (fun n => rev (seq 0 n)) [10]%Z [1]%Z = Raise ValueError).
Proof.
  apply (@split_outcome (fun n => rev (seq 0 n)) Z Z [10]%Z [1]%Z).
  apply Permutation_sym, Permutation_rev.
Defined.

(** ** Cells 12 and 14: more on the classifier and the loop *)

Section Classifier.

Variables (X T : list neighbors.point) (y : list Z).

(** The predictions of a classifier made with [k] and fitted on [X], [y]. *)
Let fit_predict (k : nat) : result (list Z) :=
  c <- neighbors.fit (neighbors.new k) X y ;; neighbors.predict c T.

Let votes (k : nat) (x : neighbors.point) : list Z :=
  map (fun i => nth i y 0%Z) (neighbors.nearest k X x).

Lemma fit_predict_cases (k : nat) :
  (length X = length y /\ (1 <= k <= length X)%nat /\ T <> [] /\
   fit_predict k
   = Ok (map (fun x => neighbors.mode (neighbors.unique y) (votes k x)) T)) \/
  ((length X <> length y \/ ~ (1 <= k <= length X)%nat \/ T = []) /\
   fit_predict k = Raise ValueError).
Proof.
  unfold fit_predict, neighbors.fit, neighbors.new;
    cbn [neighbors.n_neighbors].
  destruct (Nat.eqb_spec (length X) 0) as [E0 | E0];
    [right; split; [right; left; lia | reflexivity] |].
  destruct (Nat.eqb_spec (length X) (length y)) as [Exy | Exy]; cbn [negb];
    [| right; split; [left; exact Exy | reflexivity]].
  destruct (Nat.eqb_spec k 0) as [Ek | Ek];
    [right; split; [right; left; lia | reflexivity] |].
  cbn [bind]; unfold neighbors.predict, neighbors.kneighbors.
  cbn [neighbors.fitted neighbors.n_neighbors].
  destruct (Nat.eqb_spec (length T) 0) as [ET | ET].
  { right; split; [| reflexivity].
    right; right; destruct T; [reflexivity | discriminate]. }
  destruct (Nat.ltb_spec (length X) k) as [Ek' | Ek'];
    [right; split; [right; left; lia | reflexivity] |].
  left; cbn [bind]; rewrite map_map.
  repeat split; try lia.
  intros ->; apply ET; reflexivity.
Qed.

End Classifier.

Lemma evaluate_cases (train_data test_data : list neighbors.point)
  (train_labels test_labels : list Z) (k : nat) :
  (length train_data = length train_labels /\
   (1 <= k <= length train_data)%nat /\
   length test_data = length test_labels /\ test_data <> [] /\
   exists y_pred,
     length y_pred = length test_labels /\
     Forall (fun lab => In lab train_labels) y_pred /\
     evaluate train_data test_data train_labels test_labels k
     = Ok (inject_Z (Z.of_nat (neighbors.count_equal test_labels y_pred))
           / inject_Z (Z.of_nat (length test_labels)))) \/
  evaluate train_data test_data train_labels test_labels k = Raise ValueError.
Proof.
  assert (Hraise :
    length train_data <> length train_labels \/ k = 0%nat \/
    length test_data <> length test_labels \/ test_data = [] ->
    evaluate train_data test_data train_labels test_labels k = Raise ValueError).
  { intros Hbad.
    unfold evaluate, neighbors.fit, neighbors.new; cbn [neighbors.n_neighbors].
    destruct (Nat.eqb_spec (length train_data) 0) as [E0 | E0]; [reflexivity |].
    destruct (Nat.eqb_spec (length train_data) (length train_labels))
      as [E1 | E1]; cbn [negb]; [| reflexivity].
    destruct (Nat.eqb_spec k 0) as [E2 | E2]; [reflexivity |].
    cbn [bind]; unfold neighbors.score, neighbors.predict, neighbors.kneighbors.
    cbn [neighbors.fitted neighbors.n_neighbors].
    destruct (Nat.eqb_spec (length test_data) 0) as [E3 | E3]; [reflexivity |].
    destruct (Nat.ltb_spec (length train_data) k) as [E4 | E4]; [reflexivity |].
    cbn [bind]; unfold neighbors.accuracy_score; rewrite !length_map.
    destruct (Nat.eqb_spec (length test_labels) (length test_data))
      as [E5 | E5]; cbn [negb]; [| reflexivity].
    exfalso; destruct Hbad as [B | [B | [B | B]]];
      [contradiction | contradiction | congruence |].
    rewrite B in E3; apply E3; reflexivity. }
  destruct (Nat.eq_dec (length train_data) (length train_labels)) as [H1 | H1];
    [| right; apply Hraise; tauto].
  destruct (le_lt_dec k (length train_data)) as [H2 | H2];
    [| right; apply evaluate_raises; exact H2].
  destruct (Nat.eq_dec k 0) as [H3 | H3]; [right; apply Hraise; tauto |].
  destruct (Nat.eq_dec (length test_data) (length test_labels)) as [H4 | H4];
    [| right; apply Hraise; tauto].
  assert (Hdec : test_data = [] \/ test_data <> [])
    by (destruct test_data; [left; reflexivity | right; discriminate]).
  destruct Hdec as [H5 | H5]; [right; apply Hraise; tauto |].
  left; repeat split; try assumption; try lia.
  eexists; split; [| split; [| apply evaluate_value; try assumption; lia]].
  - rewrite length_map; exact H4.
  - apply Forall_forall; intros lab Hlab.
    apply in_map_iff in Hlab; destruct Hlab as [x [<- _]].
    destruct (@prediction_is_knn k train_data train_labels x H1)
      as [ind [_ [_ [Hr [_ [Hin _]]]]]]; [lia |].
    cbv zeta in Hin; apply in_map_iff in Hin.
    destruct Hin as [i [Hi Hind]]; rewrite <- Hi.
    apply nth_In; rewrite <- H1; apply Hr; exact Hind.
Qed.

Lemma count_equal_le (y_true y_pred : list Z) :
  (neighbors.count_equal y_true y_pred <= length y_true)%nat.
Proof.
  unfold neighbors.count_equal.
  eapply Nat.le_trans; [apply filter_length_le |].
  rewrite length_combine; lia.
Qed.

(** X12.  Every score is a fraction between 0 and 1. *)
Theorem score_between_0_and_1 (train_data test_data : list neighbors.point)
  (train_labels test_labels : list Z) (k : nat) (s : Q) :
  evaluate train_data test_data train_labels test_labels k = Ok s ->
  0 <= s /\ s <= 1.
Proof.
  intros H.
  destruct (evaluate_cases train_data test_data train_labels test_labels k)
    as [[_ [_ [Hte [Hne [y_pred [_ [_ E]]]]]]] | E];
    rewrite E in H; [| discriminate].
  injection H as <-.
  pose proof (count_equal_le test_labels y_pred) as Hc.
  set (c := neighbors.count_equal test_labels y_pred) in *.
  assert (Hn : (0 < length test_labels)%nat)
    by (rewrite <- Hte; destruct test_data; simpl; [congruence | lia]).
  assert (Hpos : 0 < inject_Z (Z.of_nat (length test_labels)))
    by (change 0 with (inject_Z 0); rewrite <- Zlt_Qlt; lia).
  split.
  - apply Qle_shift_div_l; [exact Hpos |].
    rewrite Qmult_0_l; change 0 with (inject_Z 0); rewrite <- Zle_Qle; lia.
  - apply Qle_shift_div_r; [exact Hpos |].
    rewrite Qmult_1_l, <- Zle_Qle; lia.
Qed.

Lemma score_between_0_and_1_witness : 0 <= 1 / 1 /\ 1 / 1 <= 1.
Proof.
  apply (@score_between_0_and_1 pair_train_data pair_test_data
           pair_train_labels pair_test_labels 1%nat (1 / 1)).
  reflexivity.
Defined.

(** X13.  A fitted classifier returns one prediction per test row, and
    every prediction is a label that occurs in the training labels. *)
Theorem predictions_are_training_labels (X T : list neighbors.point)
  (y : list Z) (k : nat) (y_pred : list Z) :
  (c <- neighbors.fit (neighbors.new k) X y ;; neighbors.predict c T)
    = Ok y_pred ->
  length y_pred = length T /\ Forall (fun lab => In lab y) y_pred.
Proof.
  intros H.
  destruct (fit_predict_cases X T y k) as [[Hxy [Hk [_ E]]] | [_ E]];
    rewrite E in H; [| discriminate].
  injection H as <-; split; [apply length_map |].
  apply Forall_forall; intros lab Hlab.
  apply in_map_iff in Hlab; destruct Hlab as [x [<- _]].
  destruct (@prediction_is_knn k X y x Hxy Hk)
    as [ind [_ [_ [Hr [_ [Hin _]]]]]].
  cbv zeta in Hin; apply in_map_iff in Hin.
  destruct Hin as [i [Hi Hind]]; rewrite <- Hi.
  apply nth_In; rewrite <- Hxy; apply Hr; exact Hind.
Qed.

Lemma predictions_are_training_labels_witness :
  length [0%Z] = length pair_test_data /\
  Forall (fun lab => In lab pair_train_labels) [0%Z].
Proof.
  apply (@predictions_are_training_labels pair_train_data pair_test_data
           pair_train_labels 2%nat [0%Z]).
  reflexivity.
Defined.

Lemma mode_ext (classes votes votes' : list Z) :
  (forall c, count_occ Z.eq_dec votes c = count_occ Z.eq_dec votes' c) ->
  neighbors.mode classes votes = neighbors.mode classes votes'.
Proof.
  intros H; unfold neighbors.mode; f_equal.
  generalize (0%Z, 0%nat) as acc.
  induction classes as [| c classes IH]; intros acc; simpl; [reflexivity |].
  rewrite (H c); apply IH.
Qed.

(** *** How a vote is settled *)


Section Vote.

Variable votes : list Z.

Let step (acc : Z * nat) (c : Z) : Z * nat :=
  let n := count_occ Z.eq_dec votes c in
  if (snd acc <? n)%nat then (c, n) else acc.

Lemma step_cases (acc : Z * nat) (c : Z) :
  ((snd acc < count_occ Z.eq_dec votes c)%nat /\
   step acc c = (c, count_occ Z.eq_dec votes c)) \/
  ((count_occ Z.eq_dec votes c <= snd acc)%nat /\ step acc c = acc).
Proof.
  unfold step; cbv zeta.
  destruct (Nat.ltb_spec (snd acc) (count_occ Z.eq_dec votes c)) as [H | H];
    [left | right]; split; auto.
Qed.

Lemma fold_step_monotone (cs : list Z) :
  forall acc, (snd acc <= snd (fold_left step cs acc))%nat.
Proof.
  induction cs as [| c cs IH]; intros acc; simpl; [apply Nat.le_refl |].
  eapply Nat.le_trans; [| apply IH].
  destruct (step_cases acc c) as [[H E] | [H E]]; rewrite E; simpl;
    [apply Nat.lt_le_incl; exact H | apply Nat.le_refl].
Qed.

Lemma fold_step_same_count (cs : list Z) :
  forall acc, snd (fold_left step cs acc) = snd acc ->
              fold_left step cs acc = acc.
Proof.
  induction cs as [| c cs IH]; intros acc H; simpl in *; [reflexivity |].
  pose proof (fold_step_monotone cs (step acc c)) as Hm.
  destruct (step_cases acc c) as [[Hlt E] | [Hle E]]; rewrite E in *.
  - exfalso; simpl in Hm.
    apply (Nat.lt_irrefl (snd acc)).
    eapply Nat.lt_le_trans; [exact Hlt |].
    rewrite <- H; exact Hm.
  - apply IH; exact H.
Qed.

(** Scanning strictly increasing classes, a class with as many votes as
    the winner is not smaller than the winner. *)
Lemma fold_step_smallest (cs : list Z) :
  forall acc,
    StronglySorted Z.lt cs ->
    ((0 < snd acc)%nat -> forall c, In c cs -> (fst acc < c)%Z) ->
    forall c, In c cs ->
      count_occ Z.eq_dec votes c = snd (fold_left step cs acc) ->
      (0 < snd (fold_left step cs acc))%nat ->
      (fst (fold_left step cs acc) <= c)%Z.
Proof.
  induction cs as [| c0 cs IH]; intros acc Hs Hacc c Hc Hcount Hpos;
    [contradiction |].
  inversion Hs as [| ? ? Hs' Hlt0]; subst.
  rewrite Forall_forall in Hlt0.
  simpl in Hcount, Hpos |- *.
  pose proof (fold_step_monotone cs (step acc c0)) as Hm.
  destruct (step_cases acc c0) as [[Hlt E] | [Hle E]]; rewrite E in *.
  - destruct Hc as [<- | Hc].
    + rewrite (fold_step_same_count cs (c0, count_occ Z.eq_dec votes c0))
        by (simpl; symmetry; exact Hcount).
      simpl; apply Z.le_refl.
    + apply IH; try assumption.
      intros _ c' Hc'; simpl; apply Hlt0; exact Hc'.
  - destruct Hc as [<- | Hc].
    + assert (Hsame : snd (fold_left step cs acc) = snd acc)
        by (apply Nat.le_antisymm; [rewrite <- Hcount; exact Hle | exact Hm]).
      rewrite (fold_step_same_count cs acc Hsame) in *.
      apply Z.lt_le_incl, Hacc; [exact Hpos | left; reflexivity].
    + apply IH; try assumption.
      intros Hp c' Hc'; apply Hacc; [exact Hp | right; exact Hc'].
Qed.

End Vote.

Lemma StronglySorted_strict (s : list Z) :
  StronglySorted Z.le s -> NoDup s -> StronglySorted Z.lt s.
Proof.
  induction 1 as [| a s Hs IH Ha]; intros Hnd; constructor.
  - apply IH; inversion Hnd; assumption.
  - inversion Hnd as [| ? ? Hnot _]; subst.
    rewrite Forall_forall in *; intros x Hx.
    specialize (Ha x Hx).
    assert (a <> x) by (intros ->; contradiction).
    lia.
Qed.

Lemma unique_strictly_sorted (y : list Z) :
  StronglySorted Z.lt (neighbors.unique y).
Proof.
  unfold neighbors.unique; apply StronglySorted_strict.
  - apply StronglySorted_sort_le.
  - eapply Permutation_NoDup; [apply ZSort.Permuted_sort | apply NoDup_nodup].
Qed.

(** Among the classes with the most votes the mode is the smallest. *)
Lemma mode_smallest (y votes : list Z) (c : Z) :
  (forall v, In v votes -> In v y) ->
  votes <> [] ->
  count_occ Z.eq_dec votes c
    = count_occ Z.eq_dec votes (neighbors.mode (neighbors.unique y) votes) ->
  (neighbors.mode (neighbors.unique y) votes <= c)%Z.
Proof.
  intros Hsub Hne Hc.
  destruct (@mode_max (neighbors.unique y) votes) as [Hin Hmax];
    [intros v Hv; apply In_unique, Hsub, Hv | exact Hne |].
  assert (Hpos : (0 < count_occ Z.eq_dec votes
                        (neighbors.mode (neighbors.unique y) votes))%nat)
    by (apply (count_occ_In Z.eq_dec); exact Hin).
  assert (Hcin : In c (neighbors.unique y)).
  { apply In_unique, Hsub, (count_occ_In Z.eq_dec); rewrite Hc; exact Hpos. }
  destruct (mode_fold votes (neighbors.unique y) (0%Z, 0%nat)
              (or_introl eq_refl)) as [Hr [_ Hall]].
  unfold neighbors.mode in *.
  set (r := fold_left _ (neighbors.unique y) (0%Z, 0%nat)) in *.
  destruct Hr as [Hr | Hr].
  - exfalso; specialize (Hall c Hcin); rewrite Hr in Hall; lia.
  - apply (@fold_step_smallest votes (neighbors.unique y) (0%Z, 0%nat)).
    + apply unique_strictly_sorted.
    + simpl; intros Hf; lia.
    + exact Hcin.
    + change (count_occ Z.eq_dec votes c = snd r); rewrite <- Hr; exact Hc.
    + change (0 < snd r)%nat; rewrite <- Hr; exact Hpos.
Qed.

(** *** With any neighbour search *)

Lemma knn_fit_predict
  (search : nat -> list neighbors.point -> neighbors.point -> list nat)
  (X T : list neighbors.point) (y : list Z) (k : nat) :
  length X = length y -> (1 <= k <= length X)%nat -> T <> [] ->
  (c <- neighbors.fit (neighbors.new k) X y ;; knn.predict search c T)
  = Ok (map (fun x => neighbors.mode (neighbors.unique y)
                        (map (fun i => nth i y 0%Z) (search k X x))) T).
Proof.
  intros Hxy Hk HT.
  unfold neighbors.fit, neighbors.new; cbn [neighbors.n_neighbors].
  destruct (Nat.eqb_spec (length X) 0) as [E | _]; [lia |].
  destruct (Nat.eqb_spec (length X) (length y)) as [_ | E]; [| contradiction].
  destruct (Nat.eqb_spec k 0) as [E | _]; [lia |].
  cbn [negb bind]; unfold knn.predict, knn.kneighbors.
  cbn [neighbors.fitted neighbors.n_neighbors].
  destruct (Nat.eqb_spec (length T) 0) as [E | _];
    [destruct T; [congruence | discriminate] |].
  destruct (Nat.ltb_spec (length X) k) as [E | _]; [lia |].
  cbn [bind]; rewrite map_map; reflexivity.
Qed.

(** Asked for as many neighbours as there are rows, a search returns every
    row. *)
Lemma search_all
  (search : nat -> list neighbors.point -> neighbors.point -> list nat)
  (X : list neighbors.point) (x : neighbors.point) :
  is_neighbour_search search ->
  Permutation (search (length X) X x) (seq 0 (length X)).
Proof.
  intros Hs.
  destruct (Hs (length X) X x (Nat.le_refl _)) as [Hlen [Hnd [Hr _]]].
  apply NoDup_Permutation_bis; [exact Hnd | |].
  - rewrite length_seq, Hlen; apply Nat.le_refl.
  - intros i Hi; apply in_seq; specialize (Hr i Hi); lia.
Qed.

Lemma map_nth_seq (y : list Z) :
  map (fun i => nth i y 0%Z) (seq 0 (length y)) = y.
Proof.
  induction y as [| a y IH]; simpl; [reflexivity |].
  rewrite <- seq_shift, map_map; simpl; rewrite IH; reflexivity.
Qed.

(** X14.  With as many neighbours as training rows, whichever order
    the library's search returns them in, every test row is given the same
    label: a most frequent training label, and the smallest one when
    several are most frequent. *)
Theorem all_neighbours_give_training_mode
  (search : nat -> list neighbors.point -> neighbors.point -> list nat)
  (X T : list neighbors.point) (y : list Z) :
  is_neighbour_search search ->
  length X = length y -> X <> [] -> T <> [] ->
  (c <- neighbors.fit (neighbors.new (length X)) X y ;;
   knn.predict search c T)
    = Ok (map (fun _ => neighbors.mode (neighbors.unique y) y) T) /\
  In (neighbors.mode (neighbors.unique y) y) y /\
  (forall c, (count_occ Z.eq_dec y c
              <= count_occ Z.eq_dec y
                   (neighbors.mode (neighbors.unique y) y))%nat) /\
  (forall c, count_occ Z.eq_dec y c
             = count_occ Z.eq_dec y (neighbors.mode (neighbors.unique y) y) ->
             (neighbors.mode (neighbors.unique y) y <= c)%Z).
Proof.
  intros Hs Hxy HX HT.
  assert (Hn : (0 < length X)%nat) by (destruct X; simpl; [congruence | lia]).
  assert (Hy : y <> []) by (intros ->; simpl in Hxy; lia).
  split; [| split; [| split]].
  - rewrite knn_fit_predict by (try assumption; lia).
    f_equal; apply map_ext; intros x.
    apply mode_ext; apply (Permutation_count_occ Z.eq_dec).
    eapply Permutation_trans; [apply Permutation_map, search_all, Hs |].
    rewrite Hxy, map_nth_seq; apply Permutation_refl.
  - apply mode_max; [intros v Hv; apply In_unique; exact Hv | exact Hy].
  - apply mode_max; [intros v Hv; apply In_unique; exact Hv | exact Hy].
  - intros c Hc; apply mode_smallest; [intros v Hv; exact Hv | exact Hy | exact Hc].
Qed.

Lemma all_neighbours_give_training_mode_witness :
  (c <- neighbors.fit (neighbors.new (length pair_train_data))
          pair_train_data pair_train_labels ;;
   knn.predict neighbors.nearest c pair_test_data)
    = Ok (map (fun _ => neighbors.mode (neighbors.unique pair_train_labels)
                          pair_train_labels) pair_test_data) /\
  In (neighbors.mode (neighbors.unique pair_train_labels) pair_train_labels)
     pair_train_labels /\
  (forall c, (count_occ Z.eq_dec pair_train_labels c
              <= count_occ Z.eq_dec pair_train_labels
                   (neighbors.mode (neighbors.unique pair_train_labels)
                      pair_train_labels))%nat) /\
  (forall c, count_occ Z.eq_dec pair_train_labels c
             = count_occ Z.eq_dec pair_train_labels
                 (neighbors.mode (neighbors.unique pair_train_labels)
                    pair_train_labels) ->
             (neighbors.mode (neighbors.unique pair_train_labels)
                pair_train_labels <= c)%Z).
Proof.
  apply (@all_neighbours_give_training_mode neighbors.nearest
           pair_train_data pair_test_data pair_train_labels);
    [exact nearest_is_neighbour_search | reflexivity | discriminate
    | discriminate].
Defined.

(** X15.  With one neighbour, a test row that lies on exactly one training
    row (every other training row is at a positive distance) is given that
    training row's label. *)
Theorem one_neighbour_on_a_training_row (X : list neighbors.point)
  (y : list Z) (x p : neighbors.point) (i : nat) :
  length X = length y ->
  nth_error X i = Some p ->
  neighbors.sqdist p x == 0 ->
  (forall j q, j <> i -> nth_error X j = Some q -> 0 < neighbors.sqdist q x) ->
  (c <- neighbors.fit (neighbors.new 1) X y ;; neighbors.predict c [x])
    = Ok [nth i y 0%Z].
Proof.
  intros Hxy Hp H0 Hfar.
  assert (Hi : (i < length X)%nat) by (apply nth_error_Some; congruence).
  destruct (fit_predict_cases X [x] y 1)
    as [[_ [_ [_ E]]] | [[B | [B | B]] _]];
    [| contradiction | lia | discriminate].
  rewrite E; cbn [map]; do 2 f_equal.
  destruct (@nearest_spec 1 X x) as [Hlen [_ [Hr Hnear]]]; [lia |].
  destruct (neighbors.nearest 1 X x) as [| i0 [| ? ?]] eqn:En;
    try discriminate Hlen.
  assert (Hi0 : i0 = i).
  { destruct (Nat.eq_dec i0 i) as [-> | Hne]; [reflexivity | exfalso].
    assert (H0i : (i0 < length X)%nat) by (apply Hr; left; reflexivity).
    destruct (nth_error X i0) as [q |] eqn:Hq;
      [| apply nth_error_None in Hq; lia].
    pose proof (Hfar i0 q Hne Hq) as Hpos.
    assert (Hle : neighbors.sqdist q x <= neighbors.sqdist p x).
    { apply (Hnear i0 i q p); [left; reflexivity | | exact Hq | exact Hp].
      intros [Ei | []]; apply Hne; exact Ei. }
    rewrite H0 in Hle.
    apply (Qlt_irrefl 0); eapply Qlt_le_trans; [exact Hpos | exact Hle]. }
  subst i0; cbn [map].
  destruct (@mode_max (neighbors.unique y) [nth i y 0%Z]) as [Hin _].
  - intros v [<- | []]; apply In_unique, nth_In; lia.
  - discriminate.
  - destruct Hin as [Hin | []]; symmetry; exact Hin.
Qed.

Lemma one_neighbour_on_a_training_row_witness :
  (c <- neighbors.fit (neighbors.new 1) pair_train_data pair_train_labels ;;
   neighbors.predict c [Row 1 1 1])
    = Ok [nth 1 pair_train_labels 0%Z].
Proof.
  apply (@one_neighbour_on_a_training_row pair_train_data pair_train_labels
           (Row 1 1 1) (Row 1 1 1) 1%nat).
  - reflexivity.
  - reflexivity.
  - reflexivity.
  - intros [| [| j]] q Hj Hq; simpl in Hq; try discriminate;
      [injection Hq as <-; reflexivity | congruence |
       destruct j; discriminate].
Defined.

Lemma Forall2_In_left (A B : Type) (P : A -> B -> Prop) (ks : list A)
  (vs : list B) (k : A) :
  Forall2 P ks vs -> In k ks -> exists v, P k v.
Proof.
  induction 1 as [| k' v ks vs Hk _ IH]; intros Hin; [contradiction |].
  destruct Hin as [<- | Hin]; [exists v; exact Hk | apply IH; exact Hin].
Qed.

Section Outcome.

Variables (train_data test_data : list neighbors.point).
Variables (train_labels test_labels : list Z).

Let eval := evaluate train_data test_data train_labels test_labels.
Let body := sweep_body train_data test_data train_labels test_labels.

Lemma for_outcome (ks : list nat) :
  forall acc : list Q,
    (exists ss, for_ ks body acc = Ok ss) \/
    for_ ks body acc = Raise ValueError.
Proof.
  induction ks as [| k ks IH]; intros acc; simpl.
  - left; eexists; reflexivity.
  - unfold body; rewrite sweep_body_evaluate.
    destruct (evaluate_cases train_data test_data train_labels test_labels k)
      as [[_ [_ [_ [_ [y_pred [_ [_ E]]]]]]] | E]; rewrite E; cbn [bind].
    + apply IH.
    + right; reflexivity.
Qed.

Lemma cell_14_outcome :
  (exists curve,
     cell_14 train_data test_data train_labels test_labels = Ok curve) \/
  cell_14 train_data test_data train_labels test_labels = Raise ValueError.
Proof.
  unfold cell_14, scores.
  destruct (for_outcome (range 1 200) []) as [[ss E] | E];
    fold body; rewrite E; cbn [bind].
  - destruct (negb (length (range 1 200) =? length ss)%nat);
      [right; reflexivity | left; eexists; reflexivity].
  - right; reflexivity.
Qed.

Lemma cell_14_inv (curve : list (nat * Q)) :
  cell_14 train_data test_data train_labels test_labels = Ok curve ->
  length train_data = length train_labels /\
  (199 <= length train_data)%nat /\
  length test_data = length test_labels /\
  test_data <> [] /\
  length curve = 199%nat.
Proof.
  intros H; unfold cell_14 in H.
  destruct (scores train_data test_data train_labels test_labels)
    as [ss | e] eqn:Hs; cbn [bind] in H; [| discriminate].
  destruct (Nat.eqb_spec (length (range 1 200)) (length ss)) as [El | El];
    cbn [negb] in H; [| discriminate].
  assert (Hcurve : length curve = length (combine (range 1 200) ss))
    by (f_equal; congruence).
  clear H.
  unfold scores in Hs; apply for_sweep_inv in Hs.
  destruct Hs as [vs [-> Hvs]]; change ([] ++ vs) with vs in *.
  assert (H199 : exists s, eval 199%nat = Ok s).
  { apply (@Forall2_In_left _ _ _ _ _ 199%nat Hvs); unfold range; apply in_seq; lia. }
  destruct H199 as [s Hs].
  destruct (evaluate_cases train_data test_data train_labels test_labels 199)
    as [[H1 [H2 [H3 [H4 _]]]] | E];
    [| unfold eval in Hs; rewrite E in Hs; discriminate].
  split; [exact H1 | split; [lia | split; [exact H3 | split; [exact H4 |]]]].
  rewrite Hcurve, length_combine, <- El; unfold range; rewrite length_seq; lia.
Qed.

End Outcome.

(** X16.  Cell 14 returns its points exactly when the training set has at
    least 199 rows and as many labels as rows and the test set is not empty
    and has as many labels as rows. *)
Theorem sweep_returns_iff (train_data test_data : list neighbors.point)
  (train_labels test_labels : list Z) :
  (exists curve,
     cell_14 train_data test_data train_labels test_labels = Ok curve) <->
  (length train_data = length train_labels /\
   (199 <= length train_data)%nat /\
   length test_data = length test_labels /\
   test_data <> []).
Proof.
  split.
  - intros [curve H]; apply cell_14_inv in H; tauto.
  - intros [H1 [H2 [H3 H4]]]; eexists; apply cell_14_returns; assumption.
Qed.

(** X17.  Cells 12 and 14 either return or raise [ValueError]; in
    particular no classifier is ever scored before it is fitted. *)
Theorem cells_raise_only_ValueError (train_data test_data : list neighbors.point)
  (train_labels test_labels : list Z) :
  ((exists model_score,
      cell_12 train_data test_data train_labels test_labels = Ok model_score) \/
   cell_12 train_data test_data train_labels test_labels = Raise ValueError) /\
  ((exists curve,
      cell_14 train_data test_data train_labels test_labels = Ok curve) \/
   cell_14 train_data test_data train_labels test_labels = Raise ValueError).
Proof.
  split; [| apply cell_14_outcome].
  rewrite cell_12_evaluate.
  destruct (evaluate_cases train_data test_data train_labels test_labels 5)
    as [[_ [_ [_ [_ [y_pred [_ [_ E]]]]]]] | E]; rewrite E.
  - left; eexists; reflexivity.
  - right; reflexivity.
Qed.

(** X18.  The split followed by the loop: from a data set of [n >= 2]
    records the split returns, and cell 14 run on its partitions returns
    the 199 points when [n >= 249] and raises [ValueError] when
    [n < 249]. *)
Theorem split_then_sweep (permutation : nat -> list nat)
  (scaled_data : list neighbors.point) (labels : list Z) :
  length scaled_data = length labels ->
  (2 <= length scaled_data)%nat ->
  Permutation (permutation (length scaled_data)) (seq 0 (length scaled_data)) ->
  exists train_data test_data train_labels test_labels,
    cell_10 permutation scaled_data labels
      = Ok (train_data, test_data, train_labels, test_labels) /\
    ((249 <= length scaled_data)%nat ->
     exists curve,
       cell_14 train_data test_data train_labels test_labels = Ok curve /\
       length curve = 199%nat) /\
    ((length scaled_data < 249)%nat ->
     cell_14 train_data test_data train_labels test_labels = Raise ValueError).
Proof.
  intros Hxy Hn HP.
  destruct (split_returns _ _ _ Hxy Hn HP) as [[[[tr te] trl] tel] H].
  exists tr, te, trl, tel; split; [exact H |].
  assert (Hlen : length (permutation (length scaled_data)) = length scaled_data)
    by (rewrite (Permutation_length HP); apply length_seq).
  destruct (split_parts _ _ _ H) as [_ [_ [H1 [H2 [H3 H4]]]]].
  apply safe_indexing_length in H1, H2, H3, H4.
  pose proof (Nat.div_mod_eq (length scaled_data + 4) 5) as D1.
  pose proof (Nat.mod_upper_bound (length scaled_data + 4) 5) as D2.
  rewrite slice_length in H1, H2, H3, H4 by lia.
  split.
  - intros Hbig.
    assert (Hc : cell_14 tr te trl tel
                 = Ok (combine (seq 1 199)
                         (map (score_at tr te trl tel) (seq 1 199)))).
    { apply cell_14_returns; try lia.
      intros ->; cbn [length] in H2; lia. }
    eexists; split; [exact Hc |].
    rewrite length_combine, length_map, length_seq; lia.
  - intros Hsmall.
    destruct (cell_14_outcome tr te trl tel) as [[curve E] | E]; [| exact E].
    apply cell_14_inv in E; lia.
Qed.

Lemma split_then_sweep_witness :
  exists train_data test_data train_labels test_labels,
    cell_10 (fun n => rev (seq 0 n)) long_data long_labels
      = Ok (train_data, test_data, train_labels, test_labels) /\
    ((249 <= length long_data)%nat ->
     exists curve,
       cell_14 train_data test_data train_labels test_labels = Ok curve /\
       length curve = 199%nat) /\
    ((length long_data < 249)%nat ->
     cell_14 train_data test_data train_labels test_labels = Raise ValueError).
Proof.
  apply (@split_then_sweep (fun n => rev (seq 0 n)) long_data long_labels).
  - unfold long_data, long_labels; rewrite !length_map; reflexivity.
  - unfold long_data; rewrite length_map, length_seq; lia.
  - apply Permutation_sym, Permutation_rev.
Defined.

(** ** Cells 12 and 14: how a tied vote is settled *)

(** X20.  Whichever nearest rows the library's search returns, the label
    given to a test row has the most votes among the labels of the [k]
    training rows the search returned for it, and when several labels have
    the most votes it is the smallest of them.  With labels 0 and 1 the row
    is therefore given 1 exactly when strictly more of those neighbours are
    labelled 1 than 0: a tie goes to 0. *)
Theorem tied_vote_goes_to_smaller_label
  (search : nat -> list neighbors.point -> neighbors.point -> list nat)
  (X : list neighbors.point) (y : list Z) (x : neighbors.point) (k : nat) :
  is_neighbour_search search ->
  length X = length y ->
  (1 <= k <= length X)%nat ->
  let votes := map (fun i => nth i y 0%Z) (search k X x) in
  exists lab : Z,
    (c <- neighbors.fit (neighbors.new k) X y ;; knn.predict search c [x])
      = Ok [lab] /\
    (forall c, (count_occ Z.eq_dec votes c <= count_occ Z.eq_dec votes lab)%nat) /\
    (forall c, count_occ Z.eq_dec votes c = count_occ Z.eq_dec votes lab ->
               (lab <= c)%Z) /\
    ((forall l, In l y -> l = 0%Z \/ l = 1%Z) ->
     (lab = 1%Z <->
      (count_occ Z.eq_dec votes 0%Z < count_occ Z.eq_dec votes 1%Z)%nat)).
Proof.
  intros Hs Hxy Hk votes.
  assert (E : (c <- neighbors.fit (neighbors.new k) X y ;;
               knn.predict search c [x])
              = Ok [neighbors.mode (neighbors.unique y) votes])
    by (rewrite knn_fit_predict by (try assumption; discriminate);
        reflexivity).
  set (lab := neighbors.mode (neighbors.unique y) votes) in *.
  destruct (Hs k X x (proj2 Hk)) as [Hlen [_ [Hr _]]].
  assert (Hsub : forall v, In v votes -> In v y).
  { intros v Hv; apply in_map_iff in Hv; destruct Hv as [i [<- Hi]].
    apply nth_In; rewrite <- Hxy; apply Hr; exact Hi. }
  assert (Hne : votes <> []).
  { intros E0; apply (f_equal (@length _)) in E0.
    unfold votes in E0; rewrite length_map, Hlen in E0; simpl in E0; lia. }
  destruct (@mode_max (neighbors.unique y) votes) as [Hin Hmax];
    [intros v Hv; apply In_unique, Hsub, Hv | exact Hne |].
  fold lab in Hin, Hmax.
  assert (Hsmall : forall c,
             count_occ Z.eq_dec votes c = count_occ Z.eq_dec votes lab ->
             (lab <= c)%Z)
    by (intros c Hc; apply mode_smallest; assumption).
  exists lab; split; [exact E | split; [exact Hmax | split; [exact Hsmall |]]].
  intros Hbin.
  destruct (Hbin lab (Hsub lab Hin)) as [L | L]; rewrite L in *.
  - split; [discriminate |].
    intros Hlt; pose proof (Hmax 1%Z); lia.
  - split; [intros _ | reflexivity].
    pose proof (Hmax 0%Z) as H0.
    destruct (Nat.eq_dec (count_occ Z.eq_dec votes 0%Z) (count_occ Z.eq_dec votes 1%Z))
      as [Eq | Neq]; [| lia].
    specialize (Hsmall 0%Z Eq); lia.
Qed.

Lemma tied_vote_goes_to_smaller_label_witness :
  exists lab : Z,
    (c <- neighbors.fit (neighbors.new 2) pair_train_data pair_train_labels ;;
     knn.predict neighbors.nearest c [pair_test_row])
      = Ok [lab] /\
    (forall c,
       (count_occ Z.eq_dec
          (map (fun i => nth i pair_train_labels 0%Z)
               (neighbors.nearest 2 pair_train_data pair_test_row)) c
        <= count_occ Z.eq_dec
             (map (fun i => nth i pair_train_labels 0%Z)
                  (neighbors.nearest 2 pair_train_data pair_test_row)) lab)%nat) /\
    (forall c,
       count_occ Z.eq_dec
         (map (fun i => nth i pair_train_labels 0%Z)
              (neighbors.nearest 2 pair_train_data pair_test_row)) c
       = count_occ Z.eq_dec
           (map (fun i => nth i pair_train_labels 0%Z)
                (neighbors.nearest 2 pair_train_data pair_test_row)) lab ->
       (lab <= c)%Z) /\
    ((forall l, In l pair_train_labels -> l = 0%Z \/ l = 1%Z) ->
     (lab = 1%Z <->
      (count_occ Z.eq_dec
         (map (fun i => nth i pair_train_labels 0%Z)
              (neighbors.nearest 2 pair_train_data pair_test_row)) 0%Z
       < count_occ Z.eq_dec
           (map (fun i => nth i pair_train_labels 0%Z)
                (neighbors.nearest 2 pair_train_data pair_test_row)) 1%Z)%nat)).
Proof.
  apply (@tied_vote_goes_to_smaller_label neighbors.nearest pair_train_data
           pair_train_labels pair_test_row 2%nat).
  - exact nearest_is_neighbour_search.
  - reflexivity.
  - simpl; lia.
Defined.
